(** * Springs: a mass-spring simulator (main.cpp)

    Shallow embedding of the simulation core of [main.cpp]: the structs
    [Mass], [Spring] and [System] with the member functions [force],
    [forcesZero], [updateForces], [applyForces], [process] and
    [displayMass], and the constructor of [System].

    The C++ code computes on [float] (Eigen's [Vector2f]).  The embedding
    is written once over an interface [Scalar] of the arithmetic the code
    uses and is instantiated twice:
    - [binary32]: IEEE 754 single precision, round to nearest even, on the
      specification floats of the standard library (executable, exact to
      the bit);
    - [exactR]: the real numbers, the idealised arithmetic.
    In [binary32] every operation of the source rounds once, in the order
    the source writes them (no fused multiply-add).

    A [Mass*] held by a spring is the index of the mass in the vector
    [masses] of the system ([None] is the null pointer of a spring that was
    never wired).  Functions that dereference such a pointer return an
    [option]: [None] stands for the undefined behaviour of C++ (a null or
    out-of-bounds access); it is not an error that the program reports. *)

From Stdlib Require Import ZArith List String Ascii Bool Lia.
From Stdlib Require Import Reals Lra.
From Stdlib Require Import Floats.SpecFloat.
From stdpp Require Import base option list pretty.

(** ** Scalars *)

(** The arithmetic of the code on its scalar type.  [srecip x] is the
    expression [1./x] of [Spring::force]: the literal [1.] is a [double],
    so the quotient is computed in double precision, and Eigen converts it
    to the scalar type of the vector it multiplies. *)
Class Scalar (T : Type) : Type := {
  szero : T;
  sadd : T -> T -> T;
  ssub : T -> T -> T;
  smul : T -> T -> T;
  sdiv : T -> T -> T;
  ssqrt : T -> T;
  srecip : T -> T
}.

(** IEEE 754 binary32 ([float]) and binary64 ([double]). *)
Module F32.
Definition prec : Z := 24.
Definition emax : Z := 128.
Definition dprec : Z := 53.
Definition demax : Z := 1024.

Definition add := SFadd prec emax.
Definition sub := SFsub prec emax.
Definition mul := SFmul prec emax.
Definition div := SFdiv prec emax.
Definition sqrt := SFsqrt prec emax.

(** Conversion of a [double] to [float]: rounding to nearest even. *)
Definition of_double (x : spec_float) : spec_float :=
  match x with
  | S754_finite s m e => binary_round prec emax s m e
  | _ => x
  end.

(** [1./x]: a [float] is a [double] exactly; division in binary64. *)
Definition recip (x : spec_float) : spec_float :=
  of_double (SFdiv dprec demax (SFone dprec demax) x).

(** The [float] of an integer literal. *)
Definition of_Z (z : Z) : spec_float := binary_normalize prec emax z 0 false.

(** The [float] nearest to the decimal [n / 10^d] (a literal such as [.1]). *)
Definition of_decimal (n : Z) (d : nat) : spec_float :=
  of_double (SFdiv dprec demax (binary_normalize dprec demax n 0 false)
               (binary_normalize dprec demax (10 ^ Z.of_nat d) 0 false)).

Definition is_nan (x : spec_float) : bool :=
  match x with S754_nan => true | _ => false end.
(** Inf or NaN. *)
Definition nonfinite (x : spec_float) : bool :=
  match x with S754_infinity _ | S754_nan => true | _ => false end.
Definition is_zero (x : spec_float) : bool :=
  match x with S754_zero _ => true | _ => false end.
(** Finite and not zero. *)
Definition is_finite_nonzero (x : spec_float) : bool :=
  match x with S754_finite _ _ _ => true | _ => false end.

(** A text for a [float], the value [m * 2^e] written exactly.  It
    stands for the insertion operator of the standard library, which
    prints decimals, in the examples; the theorems on [displayMass] hold
    for any insertion operator. *)
Definition show (x : spec_float) : string :=
  match x with
  | S754_zero s => if s then "-0" else "0"
  | S754_infinity s => if s then "-inf" else "inf"
  | S754_nan => "nan"
  | S754_finite s m e =>
      ((if s then "-" else "") ++ pretty (Zpos m) ++ "p" ++ pretty e)%string
  end.
End F32.

#[export] Instance binary32 : Scalar spec_float := {
  szero := S754_zero false;
  sadd := F32.add;
  ssub := F32.sub;
  smul := F32.mul;
  sdiv := F32.div;
  ssqrt := F32.sqrt;
  srecip := F32.recip
}.

#[export] Instance exactR : Scalar R := {
  szero := 0%R;
  sadd := Rplus;
  ssub := Rminus;
  smul := Rmult;
  sdiv := Rdiv;
  ssqrt := sqrt;
  srecip := fun x => (1 / x)%R
}.

(** ** Vector2f *)

Record Vector2 (T : Type) : Type := V2 { vx : T; vy : T }.
Arguments V2 {T} _ _.
Arguments vx {T} _.
Arguments vy {T} _.

Section Vector2.
Context {T : Type} `{Scalar T}.

(** [Vector2f::Zero()] *)
Definition Zero : Vector2 T := V2 szero szero.
(** [a + b], [a - b], coefficient by coefficient *)
Definition vadd (a b : Vector2 T) : Vector2 T :=
  V2 (sadd (vx a) (vx b)) (sadd (vy a) (vy b)).
Definition vsub (a b : Vector2 T) : Vector2 T :=
  V2 (ssub (vx a) (vx b)) (ssub (vy a) (vy b)).
(** [c * a] for a scalar [c] *)
Definition vscale (c : T) (a : Vector2 T) : Vector2 T :=
  V2 (smul c (vx a)) (smul c (vy a)).
(** [a.norm()]: the square root of the sum of the squared coefficients *)
Definition norm (a : Vector2 T) : T :=
  ssqrt (sadd (smul (vx a) (vx a)) (smul (vy a) (vy a))).
End Vector2.

(** The line feed, ['\n']. *)
Definition LF : string := String "010"%char EmptyString.

(** ** struct Mass *)

Module Mass.
Record t (T : Type) : Type := mk {
  m : T;
  position : Vector2 T;
  velocity : Vector2 T;
  forcesApplied : Vector2 T;
  isFixed : bool
}.
Arguments mk {T} _ _ _ _ _.
Arguments m {T} _.
Arguments position {T} _.
Arguments velocity {T} _.
Arguments forcesApplied {T} _.
Arguments isFixed {T} _.

Section Mass.
Context {T : Type} `{Scalar T}.

(** [Mass(float x, float y, float m)].  The constructor leaves
    [forcesApplied] uninitialised: [junk] is whatever the storage
    holds. *)
Definition free (x y m0 : T) (junk : Vector2 T) : t T :=
  mk m0 (V2 x y) (V2 szero szero) junk false.

(** [Mass(float x, float y)] *)
Definition fixed (x y : T) (junk : Vector2 T) : t T :=
  mk szero (V2 x y) (V2 szero szero) junk true.

Definition set_forcesApplied (f : Vector2 T) (a : t T) : t T :=
  mk (m a) (position a) (velocity a) f (isFixed a).

(** [operator<<]: [put] is the insertion of a [float] into a stream
    (the standard library's), the stream is the text written so far. *)
Definition print (put : T -> string) (os : string) (a : t T) : string :=
  (os ++ put (vx (position a)) ++ " " ++ put (vy (position a)) ++ " "
      ++ put (vx (velocity a)) ++ " " ++ put (vy (velocity a))
      ++ LF)%string.
End Mass.
End Mass.

(** ** struct Spring *)

Module Spring.
Record t (T : Type) : Type := mk {
  k : T;
  l : T;
  mass1 : option nat;
  mass2 : option nat
}.
Arguments mk {T} _ _ _ _.
Arguments k {T} _.
Arguments l {T} _.
Arguments mass1 {T} _.
Arguments mass2 {T} _.

Section Spring.
Context {T : Type} `{Scalar T}.

(** [{.k = k0, .l = l0}]: both pointers are null. *)
Definition init (k0 l0 : T) : t T := mk k0 l0 None None.

(** The vector [force()] computes from the positions [x1] and [x2]. *)
Definition force_of (k0 l0 : T) (x1 x2 : Vector2 T) : Vector2 T :=
  let direction := vscale (srecip (norm (vsub x2 x1))) (vsub x2 x1) in
  vscale (smul k0 (ssub (norm (vsub x2 x1)) l0)) direction.

(** [force()], in the vector [masses] the two pointers point into. *)
Definition force (s : t T) (masses : list (Mass.t T)) : option (Vector2 T) :=
  p1 ← mass1 s;
  a ← masses !! p1;
  p2 ← mass2 s;
  b ← masses !! p2;
  Some (force_of (k s) (l s) (Mass.position a) (Mass.position b)).
End Spring.
End Spring.

(** ** struct System *)

Module System.
Record t (T : Type) : Type := mk {
  masses : list (Mass.t T);
  springs : list (Spring.t T)
}.
Arguments mk {T} _ _.
Arguments masses {T} _.
Arguments springs {T} _.

(** [std::map<size_t, pair<size_t, size_t>>]: the entries as the loop of
    the constructor visits them, in the order of the keys. *)
Definition Connectivity : Type := list (nat * (nat * nat)).

Section System.
Context {T : Type} `{Scalar T}.

(** [p->field = ...] through a pointer [p] into a vector: undefined
    when [p] is outside the vector. *)
Definition through {A : Type} (p : nat) (f : A -> A) (v : list A)
  : option (list A) :=
  if decide (p < length v) then Some (alter f p v) else None.

(** One entry [c] of the loop of the constructor:
    [springs[c.first].mass1 = &masses[c.second.first];]
    [springs[c.first].mass2 = &masses[c.second.second];]
    The addresses are taken without any test on the indices. *)
Definition wire (c : nat * (nat * nat)) (ss : list (Spring.t T))
  : option (list (Spring.t T)) :=
  ss1 ← through c.1 (λ s, Spring.mk (Spring.k s) (Spring.l s)
                            (Some c.2.1) (Spring.mass2 s)) ss;
  through c.1 (λ s, Spring.mk (Spring.k s) (Spring.l s)
                      (Spring.mass1 s) (Some c.2.2)) ss1.

Fixpoint wire_all (connectivity : Connectivity) (ss : list (Spring.t T))
  : option (list (Spring.t T)) :=
  match connectivity with
  | [] => Some ss
  | c :: rest => ss' ← wire c ss; wire_all rest ss'
  end.

(** [System(masses_, springs_, connectivity)] *)
Definition create (masses_ : list (Mass.t T)) (springs_ : list (Spring.t T))
    (connectivity : Connectivity) : option (t T) :=
  ss ← wire_all connectivity springs_;
  Some (mk masses_ ss).

(** [forcesZero()] *)
Definition forcesZero (sys : t T) : t T :=
  mk (Mass.set_forcesApplied Zero <$> masses sys) (springs sys).

(** The body of the loop of [updateForces] for the spring [s]:
    [s.mass1->forcesApplied += s.force();]
    [s.mass2->forcesApplied -= s.force();] *)
Definition updateForces_spring (s : Spring.t T) (ms : list (Mass.t T))
  : option (list (Mass.t T)) :=
  f1 ← Spring.force s ms;
  p1 ← Spring.mass1 s;
  ms1 ← through p1
          (λ a, Mass.set_forcesApplied (vadd (Mass.forcesApplied a) f1) a) ms;
  f2 ← Spring.force s ms1;
  p2 ← Spring.mass2 s;
  through p2
    (λ a, Mass.set_forcesApplied (vsub (Mass.forcesApplied a) f2) a) ms1.

Fixpoint updateForces_loop (ss : list (Spring.t T)) (ms : list (Mass.t T))
  : option (list (Mass.t T)) :=
  match ss with
  | [] => Some ms
  | s :: rest => ms' ← updateForces_spring s ms; updateForces_loop rest ms'
  end.

(** [updateForces()] *)
Definition updateForces (sys : t T) : option (t T) :=
  ms ← updateForces_loop (springs sys) (masses sys);
  Some (mk ms (springs sys)).

(** The body of the loop of [applyForces] for the mass [a]. *)
Definition applyForces_mass (dt : T) (a : Mass.t T) : Mass.t T :=
  if Mass.isFixed a then a
  else
    let velocity' :=
      vadd (Mass.velocity a)
           (vscale (sdiv dt (Mass.m a)) (Mass.forcesApplied a)) in
    let position' := vadd (Mass.position a) (vscale dt velocity') in
    Mass.mk (Mass.m a) position' velocity' (Mass.forcesApplied a)
            (Mass.isFixed a).

(** [applyForces(dt)] *)
Definition applyForces (dt : T) (sys : t T) : t T :=
  mk (applyForces_mass dt <$> masses sys) (springs sys).

(** [process(dt)] *)
Definition process (dt : T) (sys : t T) : option (t T) :=
  sys' ← updateForces (forcesZero sys);
  Some (applyForces dt sys').

(** [n] calls of [process(dt)] in a row. *)
Fixpoint steps (n : nat) (dt : T) (sys : t T) : option (t T) :=
  match n with
  | O => Some sys
  | S n' => sys' ← process dt sys; steps n' dt sys'
  end.

(** [displayMass(n, os)]: the stream after the call. *)
Definition displayMass (put : T -> string) (n : nat) (os : string)
    (sys : t T) : option string :=
  a ← masses sys !! n;
  Some (Mass.print put os a).
End System.
End System.

(** ** The first test of [main.cpp]: one spring, one moving mass *)

Module FirstTest.
Section FirstTest.
Context {T : Type} `{Scalar T}.
(** The literals [0], [-3], [3] and [2] in the scalar type, and the
    contents of the uninitialised [forcesApplied]. *)
Variables (c0 cm3 c3 c2 : T) (junk : Vector2 T).

Definition masses : list (Mass.t T) :=
  [Mass.fixed c0 c0 junk; Mass.free c0 cm3 c3 junk].
Definition springs : list (Spring.t T) := [Spring.init c3 c2].
Definition connectivity : System.Connectivity := [(0, (0, 1))].
Definition s : option (System.t T) :=
  System.create masses springs connectivity.

(** The system once built: spring 0 joins the masses 0 and 1. *)
Definition built : System.t T :=
  System.mk masses [Spring.mk c3 c2 (Some 0) (Some 1)].
End FirstTest.

(** In [float], with [dt = .1]. *)
Definition s32 (junk : Vector2 spec_float) : option (System.t spec_float) :=
  s (F32.of_Z 0) (F32.of_Z (-3)) (F32.of_Z 3) (F32.of_Z 2) junk.
Definition dt32 : spec_float := F32.of_decimal 1 1.
Definition masses32 (junk : Vector2 spec_float) : list (Mass.t spec_float) :=
  masses (F32.of_Z 0) (F32.of_Z (-3)) (F32.of_Z 3) junk.
Definition springs32 : list (Spring.t spec_float) :=
  springs (F32.of_Z 3) (F32.of_Z 2).
Definition built32 (junk : Vector2 spec_float) : System.t spec_float :=
  built (F32.of_Z 0) (F32.of_Z (-3)) (F32.of_Z 3) (F32.of_Z 2) junk.

(** In exact arithmetic. *)
Definition sR (junk : Vector2 R) : option (System.t R) :=
  s 0%R (-3)%R 3%R 2%R junk.
Definition dtR : R := (1 / 10)%R.
End FirstTest.


(** ** Well-wired systems *)

Section Wired.
Context {T : Type}.

(** Both pointers of [s] point into a vector of [n] masses. *)
Definition wired_spring (n : nat) (s : Spring.t T) : bool :=
  match Spring.mass1 s, Spring.mass2 s with
  | Some i, Some j => (i <? n) && (j <? n)
  | _, _ => false
  end.

Definition wired (sys : System.t T) : bool :=
  forallb (wired_spring (length (System.masses sys))) (System.springs sys).

(** [s] is the spring [s0] wired to the masses of index [a] and [b]. *)
Definition wired_to (a b : nat) (s0 s : Spring.t T) : Prop :=
  s = Spring.mk (Spring.k s0) (Spring.l s0) (Some a) (Some b).

(** What a step must leave alone in a mass: everything but the
    accumulated force. *)
Definition kinetic (a : Mass.t T) : T * Vector2 T * Vector2 T * bool :=
  (Mass.m a, Mass.position a, Mass.velocity a, Mass.isFixed a).

(** The fixed masses of [ms] are found in [ms'] at the same index, fixed,
    with the same position and velocity. *)
Definition fixed_untouched (ms ms' : list (Mass.t T)) : Prop :=
  ∀ i a, ms !! i = Some a → Mass.isFixed a = true →
    ∃ a', ms' !! i = Some a' ∧ Mass.isFixed a' = true ∧
          Mass.position a' = Mass.position a ∧
          Mass.velocity a' = Mass.velocity a.
End Wired.

(** ** The accumulated force, spring by spring *)

Section NetForce.
Context {T : Type} `{Scalar T}.

(** What the spring [s] does to the force [F] accumulated on the mass of
    index [n], the positions being those of [ms]. *)
Definition contribution (ms : list (Mass.t T)) (n : nat) (F : Vector2 T)
    (s : Spring.t T) : Vector2 T :=
  match Spring.force s ms with
  | Some f =>
      let F1 := if decide (Spring.mass1 s = Some n) then vadd F f else F in
      if decide (Spring.mass2 s = Some n) then vsub F1 f else F1
  | None => F
  end.

(** The force on the mass [n] once every spring of [ss] has been visited,
    in the order of [ss], starting from [F]. *)
Definition net_force (ms : list (Mass.t T)) (ss : list (Spring.t T))
    (n : nat) (F : Vector2 T) : Vector2 T :=
  foldl (contribution ms n) F ss.
End NetForce.

(** ** Degenerate inputs, in [float] *)

Definition nan2 : Vector2 spec_float := V2 S754_nan S754_nan.

(** A spring whose two ends are at one position: the first test with the
    moving mass placed on the fixed one. *)
Module Coincident.
Definition masses : list (Mass.t spec_float) :=
  [Mass.fixed (F32.of_Z 0) (F32.of_Z 0) nan2;
   Mass.free (F32.of_Z 0) (F32.of_Z 0) (F32.of_Z 3) nan2].
Definition built : System.t spec_float :=
  System.mk masses [Spring.mk (F32.of_Z 3) (F32.of_Z 2) (Some 0) (Some 1)].
End Coincident.

(** The first test with [Mass(0, -3, 0)] for the moving mass. *)
Module ZeroMass.
Definition masses : list (Mass.t spec_float) :=
  [Mass.fixed (F32.of_Z 0) (F32.of_Z 0) nan2;
   Mass.free (F32.of_Z 0) (F32.of_Z (-3)) (F32.of_Z 0) nan2].
Definition s : option (System.t spec_float) :=
  System.create masses FirstTest.springs32 FirstTest.connectivity.
End ZeroMass.

(** The first test with the connectivity [{0, {0, 7}}]: there is no mass 7. *)
Module Dangling.
Definition connectivity : System.Connectivity := [(0, (0, 7))].
Definition s : option (System.t spec_float) :=
  System.create (FirstTest.masses32 nan2) FirstTest.springs32 connectivity.
End Dangling.

(** ** A closed system: two free masses joined by one spring *)

Module Pair.
Definition masses : list (Mass.t R) :=
  [Mass.free 0%R 0%R 1%R (V2 0%R 0%R); Mass.free 0%R (-3)%R 3%R (V2 0%R 0%R)].
Definition built : System.t R :=
  System.mk masses [Spring.mk 3%R 2%R (Some 0) (Some 1)].
End Pair.

(** ** The accumulation rule and the momentum, as the specification words them *)

Section Specification.
Context {T : Type} `{Scalar T}.

(** Specification, 4.3 (2): "add it to mass2's accumulated force,
    subtract it from mass1's accumulated force". *)
Definition contribution_spec (ms : list (Mass.t T)) (n : nat) (F : Vector2 T)
    (s : Spring.t T) : Vector2 T :=
  match Spring.force s ms with
  | Some f =>
      let F1 := if decide (Spring.mass2 s = Some n) then vadd F f else F in
      if decide (Spring.mass1 s = Some n) then vsub F1 f else F1
  | None => F
  end.

(** Total momentum: the sum of [m * velocity] over the masses. *)
Definition momentum (ms : list (Mass.t T)) : Vector2 T :=
  foldr (λ a P, vadd (vscale (Mass.m a) (Mass.velocity a)) P) Zero ms.

(** The sum of the accumulated forces. *)
Definition total_force (ms : list (Mass.t T)) : Vector2 T :=
  foldr (λ a P, vadd (Mass.forcesApplied a) P) Zero ms.

(** No spring of [sys] has its two ends at one position. *)
Definition no_coincident (sys : System.t T) : Prop :=
  ∀ s i j a b, s ∈ System.springs sys →
    Spring.mass1 s = Some i → Spring.mass2 s = Some j →
    System.masses sys !! i = Some a → System.masses sys !! j = Some b →
    Mass.position a ≠ Mass.position b.

(** The loop of the tests of [main.cpp]:
    [for (ii = 0; ii < timesteps; ii++) { s.displayMass(n, f); s.process(dt); }] *)
Fixpoint run_test (put : T → string) (timesteps n : nat) (dt : T)
    (os : string) (sys : System.t T) : option (string * System.t T) :=
  match timesteps with
  | O => Some (os, sys)
  | S t =>
      os' ← System.displayMass put n os sys;
      sys' ← System.process dt sys;
      run_test put t n dt os' sys'
  end.
End Specification.

(** The number of line feeds of a text. *)
Fixpoint line_feeds (s : string) : nat :=
  match s with
  | EmptyString => 0
  | String c s' => (if Ascii.eqb c "010"%char then 1 else 0) + line_feeds s'
  end.

(** ** Two free masses joined by a spring at its rest length, at rest *)

Module Rest.
Definition masses : list (Mass.t R) :=
  [Mass.free 0%R 0%R 1%R (V2 0%R 0%R); Mass.free 0%R (-2)%R 3%R (V2 0%R 0%R)].
Definition built : System.t R :=
  System.mk masses [Spring.mk 3%R 2%R (Some 0) (Some 1)].
End Rest.

(** ** Further notions on systems *)

Section Further.
Context {T : Type} `{Scalar T}.


(** [s] has an end at the mass of index [n]. *)
Definition attached (n : nat) (s : Spring.t T) : Prop :=
  Spring.mass1 s = Some n ∨ Spring.mass2 s = Some n.


(** The connectivity has one entry for every one of [n_springs] springs,
    and all its indices are in range. *)
Definition covering (n_masses n_springs : nat)
    (connectivity : System.Connectivity) : Prop :=
  NoDup connectivity.*1 ∧
  (∀ i, i < n_springs → i ∈ connectivity.*1) ∧
  Forall (λ c, c.1 < n_springs ∧ c.2.1 < n_masses ∧ c.2.2 < n_masses)
         connectivity.


End Further.

(** NaN in one of the two coefficients. *)
Definition has_nan (u : Vector2 spec_float) : bool :=
  F32.is_nan (vx u) || F32.is_nan (vy u).

(** ** struct Test, the table [tests] and [main] *)

Module Harness.
(** What the program leaves behind: the text written to [std::cout] and
    the files written, the latest first.  A file is opened by
    [std::ofstream f(name)], which empties it, and holds what the test
    writes to [f]; opening is taken to succeed. *)
Record World : Type := mkWorld {
  cout : string;
  files : list (string * string)
}.

(** [struct Test]: [runFunction] acts on the files. *)
Record Test : Type := mkTest {
  description : string;
  runFunction : list (string * string) → option (list (string * string))
}.

(** [Test::execute()] *)
Definition execute (t : Test) (w : World) : option World :=
  let out := (cout w ++ description t ++ "...")%string in
  fs ← runFunction t (files w);
  Some (mkWorld (out ++ "done" ++ LF)%string fs).

Section Tests.
(** The insertion of a [float] into a stream, and the contents of the
    uninitialised [forcesApplied] of the masses. *)
Variables (put : spec_float → string) (junk : Vector2 spec_float).

(** The body shared by the two lambdas: build the system, open the file,
    run the loop on the mass [n]. *)
Definition run (masses : list (Mass.t spec_float))
    (springs : list (Spring.t spec_float))
    (connectivity : System.Connectivity) (dt : spec_float)
    (timesteps : nat) (name : string) (n : nat)
    (fs : list (string * string)) : option (list (string * string)) :=
  sys ← System.create masses springs connectivity;
  r ← run_test put timesteps n dt "" sys;
  Some ((name, r.1) :: fs).

(** "One spring, one moving mass", for a number of time steps. *)
Definition test1_of (timesteps : nat) : Test :=
  mkTest "One spring, one moving mass"
    (run (FirstTest.masses32 junk) FirstTest.springs32 FirstTest.connectivity
         FirstTest.dt32 timesteps "1m1s.dat" 1).
Definition test1 : Test := test1_of 1000.

(** "One mass, four springs attached", for a number of time steps. *)
Definition masses2 : list (Mass.t spec_float) :=
  [Mass.fixed (F32.of_Z 0) (F32.of_Z 0) junk;
   Mass.fixed (F32.of_Z 1) (F32.of_Z 0) junk;
   Mass.fixed (F32.of_Z 0) (F32.of_Z 1) junk;
   Mass.fixed (F32.of_Z 1) (F32.of_Z 1) junk;
   Mass.free (F32.of_decimal 2 1) (F32.of_decimal 6 1) (F32.of_Z 1) junk].
Definition springs2 : list (Spring.t spec_float) :=
  replicate 4 (Spring.init (F32.of_Z 2) (F32.of_Z 2)).
Definition connectivity2 : System.Connectivity :=
  (λ ii, (ii, (ii, 4))) <$> seq 0 4.
Definition test2_of (timesteps : nat) : Test :=
  mkTest "One mass, four springs attached"
    (run masses2 springs2 connectivity2 (F32.of_decimal 1 2) timesteps
         "1m4s.dat" 4).
Definition test2 : Test := test2_of 10000.

(** [static const std::vector<Test> tests] *)
Definition tests : list Test := [test1; test2].

(** The loop of [main]: [for (auto& test : tests) test.execute();] *)
Fixpoint execute_all (ts : list Test) (w : World) : option World :=
  match ts with
  | [] => Some w
  | t :: rest => w' ← execute t w; execute_all rest w'
  end.

(** [main()], from an empty [std::cout] and the files [fs]. *)
Definition main (fs : list (string * string)) : option World :=
  execute_all tests (mkWorld "" fs).
End Tests.
End Harness.

(** ** Lemmas on the operations *)

Section Lemmas.
Context {T : Type} `{Scalar T}.
Implicit Types (ms : list (Mass.t T)) (ss : list (Spring.t T)).
Implicit Types (s : Spring.t T) (sys : System.t T).

Lemma through_Some {A : Type} (p : nat) (f : A → A) (v v' : list A) :
  System.through p f v = Some v' ↔ p < length v ∧ v' = alter f p v.
Proof.
  unfold System.through. destruct (decide (p < length v)) as [Hp|Hp].
  - split; [intros [= <-]; done | intros [_ ->]; done].
  - split; [done | intros [Hlt _]; done].
Qed.

Lemma through_lt {A : Type} (p : nat) (f : A → A) (v : list A) :
  p < length v → System.through p f v = Some (alter f p v).
Proof. intros. by apply through_Some. Qed.

Lemma force_Some s ms f :
  Spring.force s ms = Some f ↔
  ∃ i j a b, Spring.mass1 s = Some i ∧ Spring.mass2 s = Some j ∧
             ms !! i = Some a ∧ ms !! j = Some b ∧
             f = Spring.force_of (Spring.k s) (Spring.l s)
                   (Mass.position a) (Mass.position b).
Proof.
  unfold Spring.force. split.
  - intros Hf.
    destruct (Spring.mass1 s) as [i|]; [|done].
    destruct (Spring.mass2 s) as [j|]; simpl in Hf.
    + destruct (ms !! i) as [a|] eqn:Ha; [|done]. simpl in Hf.
      destruct (ms !! j) as [b|] eqn:Hb; [|done]. simpl in Hf.
      exists i, j, a, b. naive_solver.
    + destruct (ms !! i); done.
  - intros (i & j & a & b & -> & -> & Ha & Hb & ->). simpl.
    rewrite Ha. simpl. by rewrite Hb.
Qed.

(** [force()] reads the positions only. *)
Lemma force_positions s ms ms' :
  Mass.position <$> ms = Mass.position <$> ms' →
  Spring.force s ms = Spring.force s ms'.
Proof.
  intros Hp.
  assert (Hl : ∀ i, Mass.position <$> (ms !! i) = Mass.position <$> (ms' !! i)).
  { intros i. by rewrite <- !list_lookup_fmap, Hp. }
  unfold Spring.force.
  destruct (Spring.mass1 s) as [i|]; [|done].
  destruct (Spring.mass2 s) as [j|]; simpl.
  - pose proof (Hl i) as Hi. pose proof (Hl j) as Hj.
    destruct (ms !! i), (ms' !! i); simplify_eq/=; [|done].
    destruct (ms !! j), (ms' !! j); simplify_eq/=; [|done].
    by rewrite Hi, Hj.
  - pose proof (Hl i) as Hi.
    destruct (ms !! i), (ms' !! i); simplify_eq/=; done.
Qed.

Lemma contribution_positions ms ms' n F s :
  Mass.position <$> ms = Mass.position <$> ms' →
  contribution ms n F s = contribution ms' n F s.
Proof. intros Hp. unfold contribution. by rewrite (force_positions s ms ms'). Qed.

Lemma net_force_positions ms ms' ss n F :
  Mass.position <$> ms = Mass.position <$> ms' →
  net_force ms ss n F = net_force ms' ss n F.
Proof.
  intros Hp. unfold net_force. revert F.
  induction ss as [|s ss IH]; intros F; simpl; [done|].
  by rewrite IH, (contribution_positions ms ms').
Qed.

(** Writing the force of a mass leaves the rest of it alone. *)
Lemma kinetic_alter_force (g : Mass.t T → Vector2 T) p ms :
  kinetic <$> alter (λ a, Mass.set_forcesApplied (g a) a) p ms = kinetic <$> ms.
Proof.
  apply list_eq. intros i.
  rewrite !list_lookup_fmap.
  destruct (decide (p = i)) as [->|Hne].
  - rewrite list_lookup_alter_eq. by destruct (ms !! i).
  - by rewrite list_lookup_alter_ne.
Qed.

Lemma kinetic_position ms ms' :
  kinetic <$> ms = kinetic <$> ms' → Mass.position <$> ms = Mass.position <$> ms'.
Proof.
  intros Hk.
  change (Mass.position (T:=T)) with ((λ x, x.1.1.2) ∘ kinetic (T:=T)).
  by rewrite !list_fmap_compose, Hk.
Qed.

Lemma kinetic_length ms ms' : kinetic <$> ms = kinetic <$> ms' → length ms = length ms'.
Proof. intros Hk. by rewrite <- (length_fmap kinetic ms), Hk, length_fmap. Qed.

Lemma wired_spring_true n s :
  wired_spring n s = true ↔
  ∃ i j, Spring.mass1 s = Some i ∧ Spring.mass2 s = Some j ∧ i < n ∧ j < n.
Proof.
  unfold wired_spring. split.
  - destruct (Spring.mass1 s) as [i|], (Spring.mass2 s) as [j|]; try done.
    intros [Hi Hj]%andb_prop. exists i, j.
    apply Nat.ltb_lt in Hi. apply Nat.ltb_lt in Hj. done.
  - intros (i & j & -> & -> & Hi & Hj).
    apply Nat.ltb_lt in Hi. apply Nat.ltb_lt in Hj. by rewrite Hi, Hj.
Qed.

(** The two statements of the loop body, for a spring wired to the
    masses [a] (at [i]) and [b] (at [j]): the second call of [force()]
    returns the vector of the first. *)
Lemma updateForces_spring_wired s ms i j a b :
  Spring.mass1 s = Some i → Spring.mass2 s = Some j →
  ms !! i = Some a → ms !! j = Some b →
  let f := Spring.force_of (Spring.k s) (Spring.l s)
             (Mass.position a) (Mass.position b) in
  System.updateForces_spring s ms =
    Some (alter (λ c, Mass.set_forcesApplied (vsub (Mass.forcesApplied c) f) c) j
           (alter (λ c, Mass.set_forcesApplied (vadd (Mass.forcesApplied c) f) c) i ms)).
Proof.
  intros H1 H2 Ha Hb f.
  assert (Hf : Spring.force s ms = Some f).
  { apply force_Some. by exists i, j, a, b. }
  unfold System.updateForces_spring.
  rewrite Hf. simpl. rewrite H1. simpl.
  rewrite through_lt by by eapply lookup_lt_Some. simpl.
  rewrite <- (force_positions s ms) by
    (symmetry; apply kinetic_position,
       (kinetic_alter_force (λ c, vadd (Mass.forcesApplied c) f))).
  rewrite Hf. simpl. rewrite H2. simpl.
  rewrite through_lt; [done|].
  rewrite length_alter. by eapply lookup_lt_Some.
Qed.

Lemma updateForces_spring_inv s ms ms' :
  System.updateForces_spring s ms = Some ms' →
  ∃ i j a b, Spring.mass1 s = Some i ∧ Spring.mass2 s = Some j ∧
             ms !! i = Some a ∧ ms !! j = Some b.
Proof.
  unfold System.updateForces_spring. intros Hu.
  destruct (Spring.force s ms) as [f|] eqn:Hf; [|done].
  apply force_Some in Hf as (i & j & a & b & ? & ? & ? & ? & _).
  by exists i, j, a, b.
Qed.

Lemma updateForces_spring_kinetic s ms ms' :
  System.updateForces_spring s ms = Some ms' → kinetic <$> ms' = kinetic <$> ms.
Proof.
  intros Hu.
  destruct (updateForces_spring_inv _ _ _ Hu) as (i & j & a & b & H1 & H2 & Ha & Hb).
  rewrite (updateForces_spring_wired s ms i j a b H1 H2 Ha Hb) in Hu.
  injection Hu as <-.
  rewrite (kinetic_alter_force (λ c, vsub (Mass.forcesApplied c) _)).
  apply (kinetic_alter_force (λ c, vadd (Mass.forcesApplied c) _)).
Qed.

(** The loop body on the mass of index [n]. *)
Lemma updateForces_spring_lookup s ms ms' n a :
  System.updateForces_spring s ms = Some ms' → ms !! n = Some a →
  ms' !! n =
    Some (Mass.set_forcesApplied (contribution ms n (Mass.forcesApplied a) s) a).
Proof.
  intros Hu Hn.
  destruct (updateForces_spring_inv _ _ _ Hu) as (i & j & a0 & b0 & H1 & H2 & Ha & Hb).
  rewrite (updateForces_spring_wired s ms i j a0 b0 H1 H2 Ha Hb) in Hu.
  injection Hu as <-.
  unfold contribution.
  rewrite (proj2 (force_Some s ms _)) by (exists i, j, a0, b0; done).
  rewrite H1, H2.
  destruct (decide (Some i = Some n)) as [[= ->]|Hi];
    destruct (decide (Some j = Some n)) as [[= ->]|Hj].
  - rewrite !list_lookup_alter_eq, Hn. by destruct a.
  - rewrite list_lookup_alter_ne by congruence.
    rewrite list_lookup_alter_eq, Hn. by destruct a.
  - rewrite list_lookup_alter_eq.
    rewrite list_lookup_alter_ne by congruence. rewrite Hn. by destruct a.
  - rewrite !list_lookup_alter_ne by congruence. rewrite Hn. by destruct a.
Qed.

Lemma updateForces_loop_kinetic ss ms ms' :
  System.updateForces_loop ss ms = Some ms' → kinetic <$> ms' = kinetic <$> ms.
Proof.
  revert ms. induction ss as [|s ss IH]; intros ms Hu; simpl in Hu.
  - by injection Hu as <-.
  - destruct (System.updateForces_spring s ms) as [ms1|] eqn:H1; [|done].
    simpl in Hu. rewrite (IH _ Hu). by eapply updateForces_spring_kinetic.
Qed.

(** [updateForces] on the mass of index [n]. *)
Lemma updateForces_loop_lookup ss ms ms' n a :
  System.updateForces_loop ss ms = Some ms' → ms !! n = Some a →
  ms' !! n =
    Some (Mass.set_forcesApplied (net_force ms ss n (Mass.forcesApplied a)) a).
Proof.
  revert ms a. induction ss as [|s ss IH]; intros ms a Hu Hn; simpl in Hu.
  - injection Hu as <-. rewrite Hn. by destruct a.
  - destruct (System.updateForces_spring s ms) as [ms1|] eqn:H1; [|done].
    simpl in Hu.
    pose proof (updateForces_spring_lookup _ _ _ _ _ H1 Hn) as Hn1.
    rewrite (IH _ _ Hu Hn1).
    rewrite (net_force_positions ms1 ms)
      by by eapply kinetic_position, updateForces_spring_kinetic.
    by destruct a.
Qed.

(** [updateForces] returns exactly on the systems whose springs all point
    into the vector of masses. *)
Lemma updateForces_loop_total ss ms :
  forallb (wired_spring (length ms)) ss = true →
  ∃ ms', System.updateForces_loop ss ms = Some ms'.
Proof.
  revert ms. induction ss as [|s ss IH]; intros ms Hw; simpl in *.
  - by eexists.
  - apply andb_prop in Hw as [Hs Hw].
    apply wired_spring_true in Hs as (i & j & H1 & H2 & Hi & Hj).
    destruct (lookup_lt_is_Some_2 ms i Hi) as [a Ha].
    destruct (lookup_lt_is_Some_2 ms j Hj) as [b Hb].
    pose proof (updateForces_spring_wired s ms i j a b H1 H2 Ha Hb) as Hu.
    simpl in Hu. rewrite Hu. simpl.
    apply IH. by rewrite !length_alter.
Qed.

Lemma updateForces_loop_wired ss ms ms' :
  System.updateForces_loop ss ms = Some ms' →
  forallb (wired_spring (length ms)) ss = true.
Proof.
  revert ms. induction ss as [|s ss IH]; intros ms Hu; simpl in *; [done|].
  destruct (System.updateForces_spring s ms) as [ms1|] eqn:H1; [|done].
  simpl in Hu. apply andb_true_intro. split.
  - destruct (updateForces_spring_inv _ _ _ H1) as (i & j & a & b & ? & ? & Ha & Hb).
    apply wired_spring_true. exists i, j.
    apply lookup_lt_Some in Ha. apply lookup_lt_Some in Hb. done.
  - rewrite (kinetic_length ms ms1)
      by (symmetry; by eapply updateForces_spring_kinetic).
    by eapply IH.
Qed.
End Lemmas.

Section Process.
Context {T : Type} `{Scalar T}.
Implicit Types (ms : list (Mass.t T)) (ss : list (Spring.t T)).
Implicit Types (s : Spring.t T) (sys : System.t T) (dt : T).

Lemma forcesZero_kinetic sys :
  kinetic <$> System.masses (System.forcesZero sys) = kinetic <$> System.masses sys.
Proof.
  simpl. rewrite <- list_fmap_compose. apply list_fmap_ext. by intros i [] _.
Qed.

Lemma updateForces_Some sys sys' :
  System.updateForces sys = Some sys' ↔
  ∃ ms', System.updateForces_loop (System.springs sys) (System.masses sys) = Some ms' ∧
         sys' = System.mk ms' (System.springs sys).
Proof.
  unfold System.updateForces.
  destruct (System.updateForces_loop _ _) as [ms'|]; simpl; split.
  - intros [= <-]. by exists ms'.
  - intros (ms2 & Hms & ->). by injection Hms as ->.
  - done.
  - by intros (? & ? & _).
Qed.

Lemma process_Some dt sys sys' :
  System.process dt sys = Some sys' ↔
  ∃ ms2, System.updateForces_loop (System.springs sys)
           (Mass.set_forcesApplied Zero <$> System.masses sys) = Some ms2 ∧
         sys' = System.mk (System.applyForces_mass dt <$> ms2) (System.springs sys).
Proof.
  unfold System.process. split.
  - destruct (System.updateForces (System.forcesZero sys)) as [sys2|] eqn:Hu; [|done].
    apply updateForces_Some in Hu as (ms2 & Hu & ->). simpl in *.
    intros [= <-]. by exists ms2.
  - intros (ms2 & Hu & ->).
    rewrite (proj2 (updateForces_Some (System.forcesZero sys) (System.mk ms2 (System.springs sys))));
      [done|by exists ms2].
Qed.

(** [process] returns on every well-wired system. *)
Lemma process_total dt sys :
  wired sys = true → ∃ sys', System.process dt sys = Some sys'.
Proof.
  intros Hw.
  destruct (updateForces_loop_total (System.springs sys)
              (Mass.set_forcesApplied Zero <$> System.masses sys)) as [ms2 Hu].
  { by rewrite length_fmap. }
  eexists. apply process_Some. by exists ms2.
Qed.

Lemma process_springs dt sys sys' :
  System.process dt sys = Some sys' → System.springs sys' = System.springs sys.
Proof. by intros (ms2 & _ & ->)%process_Some. Qed.

Lemma process_length dt sys sys' :
  System.process dt sys = Some sys' →
  length (System.masses sys') = length (System.masses sys).
Proof.
  intros (ms2 & Hu & ->)%process_Some. simpl.
  apply updateForces_loop_kinetic, kinetic_length in Hu.
  by rewrite !length_fmap in *.
Qed.

Lemma process_wired dt sys sys' :
  System.process dt sys = Some sys' → wired sys = true → wired sys' = true.
Proof.
  intros Hp Hw. unfold wired.
  by rewrite (process_springs _ _ _ Hp), (process_length _ _ _ Hp).
Qed.

(** [process] on the mass of index [n]: the force is accumulated from
    zero over the springs, at the positions the step starts from, and
    the mass is then integrated. *)
Lemma process_lookup dt sys sys' n a :
  System.process dt sys = Some sys' → System.masses sys !! n = Some a →
  System.masses sys' !! n =
    Some (System.applyForces_mass dt
            (Mass.set_forcesApplied
               (net_force (System.masses sys) (System.springs sys) n Zero) a)).
Proof.
  intros (ms2 & Hu & ->)%process_Some Hn. simpl.
  rewrite list_lookup_fmap.
  rewrite (updateForces_loop_lookup _ _ _ n (Mass.set_forcesApplied Zero a) Hu)
    by by rewrite list_lookup_fmap, Hn.
  simpl.
  rewrite (net_force_positions _ (System.masses sys))
    by apply kinetic_position, (forcesZero_kinetic sys).
  by destruct a.
Qed.

Lemma applyForces_mass_fixed dt a :
  Mass.isFixed a = true → System.applyForces_mass dt a = a.
Proof. unfold System.applyForces_mass. by intros ->. Qed.

Lemma fixed_untouched_refl ms : fixed_untouched ms ms.
Proof. intros i a Ha Hf. by exists a. Qed.

Lemma fixed_untouched_trans ms1 ms2 ms3 :
  fixed_untouched ms1 ms2 → fixed_untouched ms2 ms3 → fixed_untouched ms1 ms3.
Proof.
  intros H12 H23 i a Ha Hf.
  destruct (H12 i a Ha Hf) as (a2 & Ha2 & Hf2 & Hp2 & Hv2).
  destruct (H23 i a2 Ha2 Hf2) as (a3 & Ha3 & Hf3 & Hp3 & Hv3).
  exists a3. by rewrite Hp3, Hv3.
Qed.

Lemma fixed_untouched_kinetic ms ms' :
  kinetic <$> ms' = kinetic <$> ms → fixed_untouched ms ms'.
Proof.
  intros Hk i a Ha Hf.
  assert (Hi : kinetic <$> ms' !! i = Some (kinetic a)).
  { by rewrite <- list_lookup_fmap, Hk, list_lookup_fmap, Ha. }
  destruct (ms' !! i) as [a'|]; [|done].
  exists a'. injection Hi as Hm Hp Hv Hx. by rewrite Hx, Hp, Hv.
Qed.

Lemma fixed_untouched_applyForces dt ms :
  fixed_untouched ms (System.applyForces_mass dt <$> ms).
Proof.
  intros i a Ha Hf. exists a.
  rewrite list_lookup_fmap, Ha. simpl.
  by rewrite (applyForces_mass_fixed dt a Hf).
Qed.

Lemma fixed_untouched_process dt sys sys' :
  System.process dt sys = Some sys' →
  fixed_untouched (System.masses sys) (System.masses sys').
Proof.
  intros (ms2 & Hu & ->)%process_Some. simpl.
  eapply fixed_untouched_trans; [|apply fixed_untouched_applyForces].
  apply fixed_untouched_kinetic.
  rewrite (updateForces_loop_kinetic _ _ _ Hu). apply (forcesZero_kinetic sys).
Qed.

Lemma steps_total n dt sys :
  wired sys = true → ∃ sys', System.steps n dt sys = Some sys'.
Proof.
  revert sys. induction n as [|n IH]; intros sys Hw; simpl.
  - by eexists.
  - destruct (process_total dt sys Hw) as [sys1 H1]. rewrite H1. simpl.
    apply IH. by eapply process_wired.
Qed.

Lemma fixed_untouched_steps n dt sys sys' :
  System.steps n dt sys = Some sys' →
  fixed_untouched (System.masses sys) (System.masses sys').
Proof.
  revert sys. induction n as [|n IH]; intros sys Hs; simpl in Hs.
  - injection Hs as <-. apply fixed_untouched_refl.
  - destruct (System.process dt sys) as [sys1|] eqn:H1; [|done]. simpl in Hs.
    eapply fixed_untouched_trans; [by eapply fixed_untouched_process|by apply IH].
Qed.
End Process.

(** ** The first step of the first test, in any arithmetic *)

Lemma FirstTest_first_step {T : Type} `{Scalar T} (c0 cm3 c3 c2 c01 : T)
    (junk : Vector2 T) :
  let f := Spring.force_of c3 c2 (V2 c0 c0) (V2 c0 cm3) in
  let F := vsub Zero f in
  let v := vadd (V2 szero szero) (vscale (sdiv c01 c3) F) in
  FirstTest.s c0 cm3 c3 c2 junk = Some (FirstTest.built c0 cm3 c3 c2 junk) ∧
  System.process c01 (FirstTest.built c0 cm3 c3 c2 junk) =
    Some (System.mk
            [Mass.mk szero (V2 c0 c0) (V2 szero szero) (vadd Zero f) true;
             Mass.mk c3 (vadd (V2 c0 cm3) (vscale c01 v)) v F false]
            [Spring.mk c3 c2 (Some 0) (Some 1)]).
Proof. split; reflexivity. Qed.

(** ** Exact arithmetic: forces and momentum *)

Section Exact.
Local Open Scope R_scope.
Implicit Types (ms : list (Mass.t R)) (a : Mass.t R) (f : Vector2 R).

Ltac unfold_vec :=
  cbv [vadd vsub vscale norm Zero szero sadd ssub smul sdiv ssqrt srecip
       exactR vx vy Spring.force_of].

Lemma alter_head {A : Type} (h : A → A) (x : A) (v : list A) :
  alter h 0%nat (x :: v) = h x :: v.
Proof. reflexivity. Qed.

Lemma alter_tail {A : Type} (h : A → A) (i : nat) (x : A) (v : list A) :
  alter h (S i) (x :: v) = x :: alter h i v.
Proof. reflexivity. Qed.

Lemma V2_eq (u v : Vector2 R) : vx u = vx v → vy u = vy v → u = v.
Proof. destruct u, v; simpl. by intros -> ->. Qed.

Lemma total_force_cons a ms :
  total_force (a :: ms) = vadd (Mass.forcesApplied a) (total_force ms).
Proof. reflexivity. Qed.

Lemma momentum_cons a ms :
  momentum (a :: ms) = vadd (vscale (Mass.m a) (Mass.velocity a)) (momentum ms).
Proof. reflexivity. Qed.

Lemma total_force_zero ms :
  total_force (Mass.set_forcesApplied Zero <$> ms) = Zero.
Proof.
  induction ms as [|a ms IH]; [done|].
  rewrite fmap_cons, total_force_cons, IH.
  apply V2_eq; unfold_vec; cbn [Mass.forcesApplied Mass.set_forcesApplied vx vy]; lra.
Qed.

Lemma total_force_alter (g : Vector2 R → Vector2 R) (i : nat) ms a :
  ms !! i = Some a →
  total_force (alter (λ c, Mass.set_forcesApplied (g (Mass.forcesApplied c)) c) i ms)
  = vadd (total_force ms) (vsub (g (Mass.forcesApplied a)) (Mass.forcesApplied a)).
Proof.
  revert i. induction ms as [|c ms IH]; intros [|i] Hi; try done.
  - injection Hi as ->. clear IH.
    rewrite alter_head, !total_force_cons.
    cbn [Mass.forcesApplied Mass.set_forcesApplied].
    destruct (g (Mass.forcesApplied a)), (Mass.forcesApplied a), (total_force ms).
    apply V2_eq; unfold_vec; lra.
  - rewrite alter_tail, !total_force_cons, (IH i Hi). clear IH.
    destruct (g (Mass.forcesApplied a)), (Mass.forcesApplied a),
      (Mass.forcesApplied c), (total_force ms).
    apply V2_eq; unfold_vec; lra.
Qed.

(** The two forces one spring applies sum to zero. *)
Lemma total_force_spring (s : Spring.t R) ms ms' :
  System.updateForces_spring s ms = Some ms' → total_force ms' = total_force ms.
Proof.
  intros Hu.
  destruct (updateForces_spring_inv _ _ _ Hu) as (i & j & a & b & H1 & H2 & Ha & Hb).
  rewrite (updateForces_spring_wired s ms i j a b H1 H2 Ha Hb) in Hu.
  injection Hu as <-.
  set (f := Spring.force_of _ _ _ _).
  assert (Hj : ∃ b', alter (λ c, Mass.set_forcesApplied
                                   (vadd (Mass.forcesApplied c) f) c) i ms !! j = Some b').
  { apply lookup_lt_is_Some. rewrite length_alter. by eapply lookup_lt_Some. }
  destruct Hj as [b' Hb'].
  rewrite (total_force_alter (λ u, vsub u f) j _ b' Hb').
  rewrite (total_force_alter (λ u, vadd u f) i _ a Ha).
  destruct (Mass.forcesApplied b'), (Mass.forcesApplied a), f, (total_force ms).
  apply V2_eq; unfold_vec; lra.
Qed.

Lemma total_force_loop (ss : list (Spring.t R)) ms ms' :
  System.updateForces_loop ss ms = Some ms' → total_force ms' = total_force ms.
Proof.
  revert ms. induction ss as [|s ss IH]; intros ms Hu; simpl in Hu.
  - by injection Hu as <-.
  - destruct (System.updateForces_spring s ms) as [ms1|] eqn:H1; [|done].
    simpl in Hu. rewrite (IH _ Hu). by eapply total_force_spring.
Qed.

Lemma momentum_kinetic ms ms' :
  kinetic <$> ms = kinetic <$> ms' → momentum ms = momentum ms'.
Proof.
  revert ms'. induction ms as [|a ms IH]; intros [|a' ms'] Hk; try done.
  rewrite !fmap_cons in Hk. injection Hk as Hm Hp Hv Hf Hk.
  by rewrite !momentum_cons, Hm, Hv, (IH ms' Hk).
Qed.

(** Integration of free masses adds [dt] times the total force. *)
Lemma momentum_applyForces (dt : R) ms :
  Forall (λ a, Mass.isFixed a = false) ms →
  Forall (λ a, Mass.m a ≠ 0) ms →
  momentum (System.applyForces_mass dt <$> ms)
  = vadd (momentum ms) (vscale dt (total_force ms)).
Proof.
  induction ms as [|a ms IH]; intros Hfree Hm.
  - rewrite fmap_nil. unfold momentum, total_force. cbn [foldr].
    apply V2_eq; unfold_vec; lra.
  - apply Forall_cons in Hfree as [Ha Hfree]. apply Forall_cons in Hm as [Hma Hm].
    rewrite fmap_cons, !momentum_cons, total_force_cons, (IH Hfree Hm).
    unfold System.applyForces_mass. rewrite Ha.
    cbn [Mass.m Mass.velocity].
    destruct (Mass.velocity a), (Mass.forcesApplied a), (momentum ms), (total_force ms).
    apply V2_eq; unfold_vec; field; done.
Qed.
End Exact.

(** ** [float]: what NaN and Inf do *)

Section Float.
Implicit Types (x y : spec_float).

Lemma sub_self x : F32.sub x x = S754_zero false ∨ F32.sub x x = S754_nan.
Proof.
  destruct x as [[]|[]| |sx mx ex]; try (by left); try (by right).
  left. unfold F32.sub, SFsub. by rewrite Z.sub_diag.
Qed.

Lemma mul_nan_r x : F32.mul x S754_nan = S754_nan.
Proof. by destruct x. Qed.

Lemma add_nan_r x : F32.add x S754_nan = S754_nan.
Proof. by destruct x. Qed.

Lemma sub_nan_r x : F32.sub x S754_nan = S754_nan.
Proof. by destruct x. Qed.

(** [1./n * d] when each coefficient of [d] is [+0] or NaN. *)
Lemma direction_nan dx dy :
  dx = S754_zero false ∨ dx = S754_nan →
  dy = S754_zero false ∨ dy = S754_nan →
  vscale (srecip (norm (V2 dx dy))) (V2 dx dy) = nan2.
Proof. by intros [-> | ->] [-> | ->]. Qed.

Lemma force_of_coincident (k0 l0 : spec_float) (p : Vector2 spec_float) :
  Spring.force_of k0 l0 p p = nan2.
Proof.
  unfold Spring.force_of.
  change (vsub p p) with (V2 (F32.sub (vx p) (vx p)) (F32.sub (vy p) (vy p))).
  rewrite (direction_nan _ _ (sub_self (vx p)) (sub_self (vy p))).
  unfold vscale, nan2. cbn [vx vy smul binary32]. by rewrite mul_nan_r.
Qed.

Lemma vadd_nan_r (u : Vector2 spec_float) : vadd u nan2 = nan2.
Proof. unfold vadd, nan2. cbn [vx vy sadd binary32]. by rewrite !add_nan_r. Qed.

Lemma vsub_nan_r (u : Vector2 spec_float) : vsub u nan2 = nan2.
Proof. unfold vsub, nan2. cbn [vx vy ssub binary32]. by rewrite !sub_nan_r. Qed.

Lemma vscale_nan_r (c : spec_float) : vscale c nan2 = nan2.
Proof. unfold vscale, nan2. cbn [vx vy smul binary32]. by rewrite !mul_nan_r. Qed.

(** A NaN force stays NaN whatever the springs visited next add to it. *)
Lemma contribution_nan (ms : list (Mass.t spec_float)) (n : nat)
    (s : Spring.t spec_float) :
  contribution ms n nan2 s = nan2.
Proof.
  unfold contribution. destruct (Spring.force s ms) as [f|]; [|done].
  destruct (decide (Spring.mass1 s = Some n)), (decide (Spring.mass2 s = Some n));
    done.
Qed.

Lemma net_force_nan_start (ms : list (Mass.t spec_float))
    (ss : list (Spring.t spec_float)) (n : nat) :
  net_force ms ss n nan2 = nan2.
Proof.
  unfold net_force. induction ss as [|s ss IH]; [done|].
  cbn [foldl]. by rewrite contribution_nan.
Qed.

(** One spring of NaN force at the mass [n] makes its accumulated force NaN. *)
Lemma net_force_nan (ms : list (Mass.t spec_float))
    (ss : list (Spring.t spec_float)) (n : nat) (s : Spring.t spec_float)
    (F : Vector2 spec_float) :
  s ∈ ss → Spring.force s ms = Some nan2 →
  Spring.mass1 s = Some n ∨ Spring.mass2 s = Some n →
  net_force ms ss n F = nan2.
Proof.
  intros Hin Hf Hn. revert F.
  induction ss as [|s' ss IH]; intros F; [by apply elem_of_nil in Hin|].
  unfold net_force. cbn [foldl]. fold (net_force ms ss n (contribution ms n F s')).
  apply elem_of_cons in Hin as [<-|Hin]; [|by apply IH].
  assert (Hc : contribution ms n F s = nan2).
  { unfold contribution. rewrite Hf.
    destruct (decide (Spring.mass1 s = Some n)), (decide (Spring.mass2 s = Some n));
      rewrite ?vadd_nan_r, ?vsub_nan_r; try done.
    by destruct Hn. }
  rewrite Hc. apply net_force_nan_start.
Qed.

Lemma div_by_zero dt sz :
  F32.is_finite_nonzero dt = true →
  ∃ si, F32.div dt (S754_zero sz) = S754_infinity si.
Proof. destruct dt; try done. intros _. by eexists. Qed.

Lemma mul_inf_l si x : F32.nonfinite (F32.mul (S754_infinity si) x) = true.
Proof. by destruct x. Qed.

Lemma add_nonfinite_r x y :
  F32.nonfinite y = true → F32.nonfinite (F32.add x y) = true.
Proof. destruct x as [| [] | |], y as [| [] | |]; done. Qed.

Lemma mul_nonfinite_r dt y :
  F32.is_finite_nonzero dt = true → F32.nonfinite y = true →
  F32.nonfinite (F32.mul dt y) = true.
Proof. destruct dt, y; done. Qed.
End Float.

(** ** The constructor *)

Section Create.
Context {T : Type} `{Scalar T}.
Implicit Types (ss : list (Spring.t T)) (c : nat * (nat * nat)).
Implicit Types (connectivity : System.Connectivity).

Lemma wire_Some c ss ss' :
  System.wire c ss = Some ss' →
  c.1 < length ss ∧ length ss' = length ss ∧
  (∀ i, i ≠ c.1 → ss' !! i = ss !! i) ∧
  (∀ s0, ss !! c.1 = Some s0 →
     ss' !! c.1 = Some (Spring.mk (Spring.k s0) (Spring.l s0) (Some c.2.1) (Some c.2.2))).
Proof.
  unfold System.wire. intros Hw.
  destruct (System.through c.1 _ ss) as [ss1|] eqn:H1; [|done]. simpl in Hw.
  apply through_Some in H1 as [Hlt ->].
  apply through_Some in Hw as [_ ->].
  split; [done|]. split; [by rewrite !length_alter|]. split.
  - intros i Hi. by rewrite !list_lookup_alter_ne.
  - intros s0 Hs0. by rewrite !list_lookup_alter_eq, Hs0.
Qed.

Lemma wire_total c ss : c.1 < length ss → ∃ ss', System.wire c ss = Some ss'.
Proof.
  intros Hlt. unfold System.wire.
  rewrite through_lt by done. simpl.
  rewrite through_lt by by rewrite length_alter. by eexists.
Qed.

Lemma wire_all_total connectivity ss :
  Forall (λ c, c.1 < length ss) connectivity →
  ∃ ss', System.wire_all connectivity ss = Some ss'.
Proof.
  revert ss. induction connectivity as [|c rest IH]; intros ss Hr; simpl.
  - by eexists.
  - apply Forall_cons in Hr as [Hc Hr].
    destruct (wire_total c ss Hc) as [ss1 H1]. rewrite H1. simpl.
    apply IH. apply wire_Some in H1 as (_ & -> & _). done.
Qed.

Lemma wire_all_in_range connectivity ss ss' :
  System.wire_all connectivity ss = Some ss' →
  Forall (λ c, c.1 < length ss) connectivity ∧ length ss' = length ss.
Proof.
  revert ss. induction connectivity as [|c rest IH]; intros ss Hw; simpl in Hw.
  - injection Hw as <-. by split.
  - destruct (System.wire c ss) as [ss1|] eqn:H1; [|done]. simpl in Hw.
    apply wire_Some in H1 as (Hlt & Hl & _).
    destruct (IH _ Hw) as [Hr Hl']. rewrite Hl in Hr, Hl'.
    split; [by constructor|done].
Qed.

Lemma wire_all_other connectivity ss ss' i :
  System.wire_all connectivity ss = Some ss' → i ∉ connectivity.*1 →
  ss' !! i = ss !! i.
Proof.
  revert ss. induction connectivity as [|c rest IH]; intros ss Hw Hi; simpl in Hw.
  - by injection Hw as <-.
  - destruct (System.wire c ss) as [ss1|] eqn:H1; [|done]. simpl in Hw.
    rewrite fmap_cons in Hi. apply not_elem_of_cons in Hi as [Hne Hi].
    rewrite (IH _ Hw Hi).
    apply wire_Some in H1 as (_ & _ & Ho & _). by apply Ho.
Qed.

Lemma wire_all_entry connectivity ss ss' i a b :
  System.wire_all connectivity ss = Some ss' → NoDup connectivity.*1 →
  (i, (a, b)) ∈ connectivity →
  ∃ s0 s, ss !! i = Some s0 ∧ ss' !! i = Some s ∧ wired_to a b s0 s.
Proof.
  revert ss. induction connectivity as [|c rest IH]; intros ss Hw Hnd Hin; simpl in Hw.
  - by apply elem_of_nil in Hin.
  - destruct (System.wire c ss) as [ss1|] eqn:H1; [|done]. simpl in Hw.
    rewrite fmap_cons in Hnd. apply NoDup_cons in Hnd as [Hfresh Hnd].
    apply wire_Some in H1 as (Hlt & Hl & Ho & Hc).
    apply elem_of_cons in Hin as [<-|Hin].
    + simpl in *. destruct (lookup_lt_is_Some_2 ss i Hlt) as [s0 Hs0].
      exists s0, (Spring.mk (Spring.k s0) (Spring.l s0) (Some a) (Some b)).
      split; [done|]. split; [|done].
      rewrite (wire_all_other _ _ _ i Hw Hfresh). by apply Hc.
    + destruct (IH _ Hw Hnd Hin) as (s1 & s & Hs1 & Hs & Hwt).
      assert (Hne : i ≠ c.1).
      { intros ->. apply Hfresh.
        apply list_elem_of_fmap. by exists (c.1, (a, b)). }
      rewrite (Ho i Hne) in Hs1. by exists s1, s.
Qed.
End Create.

(** ** The rendering of a mass *)

Lemma line_feeds_app (s1 s2 : string) :
  line_feeds (s1 ++ s2) = line_feeds s1 + line_feeds s2.
Proof.
  induction s1 as [|c s1 IH]; [done|].
  change (String c s1 ++ s2)%string with (String c (s1 ++ s2)%string).
  cbn [line_feeds]. rewrite IH. lia.
Qed.

(** ** Theorems *)

(** C2 (as amended).  [updateForces] visits the springs in order; for each
    spring the vector [force()] (along mass1 -> mass2, of size
    [k * (length - l)]) is added to the accumulated force of mass1 and
    subtracted from that of mass2, the two calls of [force()] returning the
    same vector: on a well-wired system the force of every mass [n] ends as
    [net_force], the fold of [contribution] over the springs. *)
Theorem updateForces_accumulates {T : Type} `{Scalar T} (sys : System.t T) :
  wired sys = true →
  ∃ sys', System.updateForces sys = Some sys' ∧
    System.springs sys' = System.springs sys ∧
    length (System.masses sys') = length (System.masses sys) ∧
    ∀ n a, System.masses sys !! n = Some a →
      System.masses sys' !! n =
        Some (Mass.set_forcesApplied
                (net_force (System.masses sys) (System.springs sys) n
                   (Mass.forcesApplied a)) a).
Proof.
  intros Hw.
  destruct (updateForces_loop_total _ _ Hw) as [ms' Hu].
  exists (System.mk ms' (System.springs sys)). split; [|split; [|split]].
  - apply updateForces_Some. by exists ms'.
  - done.
  - simpl. apply kinetic_length. by eapply updateForces_loop_kinetic.
  - intros n a Hn. simpl. by apply updateForces_loop_lookup.
Qed.

Lemma updateForces_accumulates_witness :
  wired (System.forcesZero (FirstTest.built32 nan2)) = true ∧
  ∃ sys', System.updateForces (System.forcesZero (FirstTest.built32 nan2)) = Some sys' ∧
    System.masses sys' !! 1 =
      Some (Mass.mk (F32.of_Z 3) (V2 (F32.of_Z 0) (F32.of_Z (-3)))
              (V2 (F32.of_Z 0) (F32.of_Z 0)) (V2 (F32.of_Z 0) (F32.of_Z 3)) false).
Proof.
  split; [reflexivity|].
  destruct (updateForces_accumulates (System.forcesZero (FirstTest.built32 nan2)) eq_refl)
    as (sys' & Hu & _ & _ & Hn).
  exists sys'. split; [exact Hu|].
  rewrite (Hn 1 _ eq_refl). vm_compute. reflexivity.
Defined.

(** C2, as the specification words it, fails on the first test, in [float]:
    the spring's force is [(0,-3)]; the force of mass2 ends as [(0,3)], not
    as [0 + (0,-3)], and that of mass1 as [(0,-3)], not as [0 - (0,-3)]. *)
Lemma updateForces_spec_counterexample :
  ∃ s f sys' a1 a2 b1 b2,
    System.springs (FirstTest.built32 nan2) = [s] ∧
    Spring.mass1 s = Some 0 ∧ Spring.mass2 s = Some 1 ∧
    Spring.force s (System.masses (System.forcesZero (FirstTest.built32 nan2))) = Some f ∧
    System.updateForces (System.forcesZero (FirstTest.built32 nan2)) = Some sys' ∧
    System.masses (System.forcesZero (FirstTest.built32 nan2)) !! 0 = Some a1 ∧
    System.masses (System.forcesZero (FirstTest.built32 nan2)) !! 1 = Some a2 ∧
    System.masses sys' !! 0 = Some b1 ∧
    System.masses sys' !! 1 = Some b2 ∧
    Mass.forcesApplied b2 ≠ vadd (Mass.forcesApplied a2) f ∧
    Mass.forcesApplied b1 ≠ vsub (Mass.forcesApplied a1) f ∧
    Mass.forcesApplied b2 ≠ contribution_spec (System.masses (FirstTest.built32 nan2)) 1
                               (Mass.forcesApplied a2) s.
Proof.
  do 7 eexists.
  do 9 (split; [reflexivity|]).
  split; [|split]; vm_compute; discriminate.
Qed.

(** C3.  On a well-wired system [process(dt)] returns, and for every mass
    [a] of index [n], with [F] the force accumulated from zero at the
    positions the step starts from: when [a] is not fixed its velocity
    becomes [velocity + (dt / m) * F] and its position
    [position + dt * velocity'] for that new velocity; when [a] is fixed
    neither changes. *)
Theorem process_integrates {T : Type} `{Scalar T} (dt : T) (sys : System.t T) :
  wired sys = true →
  ∃ sys', System.process dt sys = Some sys' ∧
    length (System.masses sys') = length (System.masses sys) ∧
    ∀ n a, System.masses sys !! n = Some a →
      ∃ a', System.masses sys' !! n = Some a' ∧
        let F := net_force (System.masses sys) (System.springs sys) n Zero in
        Mass.forcesApplied a' = F ∧
        (Mass.isFixed a = false →
           Mass.velocity a' =
             vadd (Mass.velocity a) (vscale (sdiv dt (Mass.m a)) F) ∧
           Mass.position a' =
             vadd (Mass.position a) (vscale dt (Mass.velocity a'))) ∧
        (Mass.isFixed a = true →
           Mass.velocity a' = Mass.velocity a ∧
           Mass.position a' = Mass.position a).
Proof.
  intros Hw. destruct (process_total dt sys Hw) as [sys' Hp].
  exists sys'. split; [done|]. split; [by eapply process_length|].
  intros n a Hn. eexists. split; [by eapply process_lookup|].
  unfold System.applyForces_mass. simpl.
  destruct (Mass.isFixed a); simpl; repeat split; done.
Qed.

Lemma process_integrates_witness :
  wired (FirstTest.built32 nan2) = true ∧
  ∃ sys', System.process FirstTest.dt32 (FirstTest.built32 nan2) = Some sys' ∧
    length (System.masses sys') = 2.
Proof.
  split; [reflexivity|].
  destruct (process_integrates FirstTest.dt32 (FirstTest.built32 nan2) eq_refl)
    as (sys' & Hp & Hl & _).
  exists sys'. split; [exact Hp|exact Hl].
Defined.

(** C5.  From a system as the constructor built it, well wired: after any
    number of calls of [process] every fixed mass is still fixed and has
    the position and the velocity it was built with, the very same values;
    and none of [forcesZero], [updateForces], [applyForces] writes the
    position or the velocity of a fixed mass. *)
Theorem fixed_mass_invariance {T : Type} `{Scalar T}
    (masses_ : list (Mass.t T)) (springs_ : list (Spring.t T))
    (connectivity : System.Connectivity) (sys : System.t T) (dt : T) (n : nat) :
  System.create masses_ springs_ connectivity = Some sys →
  wired sys = true →
  (∃ sys', System.steps n dt sys = Some sys' ∧
           fixed_untouched masses_ (System.masses sys')) ∧
  fixed_untouched masses_ (System.masses (System.forcesZero sys)) ∧
  (∃ sys', System.updateForces sys = Some sys' ∧
           fixed_untouched masses_ (System.masses sys')) ∧
  fixed_untouched masses_ (System.masses (System.applyForces dt sys)).
Proof.
  intros Hc Hw.
  assert (Hm : System.masses sys = masses_).
  { unfold System.create in Hc.
    destruct (System.wire_all connectivity springs_); [|done].
    by injection Hc as <-. }
  rewrite <- Hm. split; [|split; [|split]].
  - destruct (steps_total n dt sys Hw) as [sys' Hs].
    exists sys'. split; [done|]. by eapply fixed_untouched_steps.
  - apply fixed_untouched_kinetic, forcesZero_kinetic.
  - destruct (updateForces_loop_total _ _ Hw) as [ms' Hu].
    exists (System.mk ms' (System.springs sys)). split.
    + apply updateForces_Some. by exists ms'.
    + apply fixed_untouched_kinetic. by eapply updateForces_loop_kinetic.
  - apply fixed_untouched_applyForces.
Qed.

Lemma fixed_mass_invariance_witness :
  System.create (FirstTest.masses32 nan2) FirstTest.springs32 FirstTest.connectivity
    = Some (FirstTest.built32 nan2) ∧
  wired (FirstTest.built32 nan2) = true ∧
  ∃ sys', System.steps 1000 FirstTest.dt32 (FirstTest.built32 nan2) = Some sys' ∧
    fixed_untouched (FirstTest.masses32 nan2) (System.masses sys').
Proof.
  split; [reflexivity|]. split; [reflexivity|].
  exact (proj1 (fixed_mass_invariance (FirstTest.masses32 nan2) FirstTest.springs32
                  FirstTest.connectivity (FirstTest.built32 nan2)
                  FirstTest.dt32 1000 eq_refl eq_refl)).
Defined.

(** C10.  [process(dt)] on a well-wired system returns a system with the
    same springs (their number, [k], [l] and both pointers) and the same
    number of masses, every mass keeping its [m] and [isFixed], and a fixed
    mass its position and velocity: it writes nothing but the accumulated
    forces and the velocity and position of the masses that are not fixed. *)
Theorem process_frame {T : Type} `{Scalar T} (dt : T) (sys : System.t T) :
  wired sys = true →
  ∃ sys', System.process dt sys = Some sys' ∧
    System.springs sys' = System.springs sys ∧
    length (System.masses sys') = length (System.masses sys) ∧
    ∀ n a, System.masses sys !! n = Some a →
      ∃ a', System.masses sys' !! n = Some a' ∧
        Mass.m a' = Mass.m a ∧ Mass.isFixed a' = Mass.isFixed a ∧
        (Mass.isFixed a = true →
           Mass.position a' = Mass.position a ∧
           Mass.velocity a' = Mass.velocity a).
Proof.
  intros Hw. destruct (process_total dt sys Hw) as [sys' Hp].
  exists sys'. split; [done|].
  split; [by eapply process_springs|]. split; [by eapply process_length|].
  intros n a Hn. eexists. split; [by eapply process_lookup|].
  unfold System.applyForces_mass. simpl.
  destruct (Mass.isFixed a) eqn:Hf; simpl; repeat split; done.
Qed.

Lemma process_frame_witness :
  wired (FirstTest.built32 nan2) = true ∧
  ∃ sys', System.process FirstTest.dt32 (FirstTest.built32 nan2) = Some sys' ∧
    System.springs sys' = System.springs (FirstTest.built32 nan2).
Proof.
  split; [reflexivity|].
  destruct (process_frame FirstTest.dt32 (FirstTest.built32 nan2) eq_refl)
    as (sys' & Hp & Hs & _).
  exists sys'. split; [exact Hp|exact Hs].
Defined.

(** C6.  Exact arithmetic.  In a well-wired system without fixed masses,
    the masses non-zero and no spring having its two ends at one position,
    [process(dt)] returns and the total momentum, the sum of
    [m * velocity] over the masses, is the same after the step: the two
    forces each spring applies cancel. *)
Theorem momentum_conserved (dt : R) (sys : System.t R) :
  wired sys = true →
  Forall (λ a, Mass.isFixed a = false) (System.masses sys) →
  Forall (λ a, Mass.m a ≠ 0%R) (System.masses sys) →
  no_coincident sys →
  ∃ sys', System.process dt sys = Some sys' ∧
    momentum (System.masses sys') = momentum (System.masses sys).
Proof.
  intros Hw Hfree Hm _.
  destruct (process_total dt sys Hw) as [sys' Hp].
  exists sys'. split; [done|].
  apply process_Some in Hp as (ms2 & Hu & ->). simpl.
  pose proof (updateForces_loop_kinetic _ _ _ Hu) as Hk.
  pose proof (forcesZero_kinetic sys) as Hz. simpl in Hz. rewrite Hz in Hk. clear Hz.
  assert (Hfree2 : Forall (λ a, Mass.isFixed a = false) ms2).
  { apply Forall_lookup. intros i a2 Hi.
    assert (Hi' : kinetic <$> System.masses sys !! i = Some (kinetic a2))
      by by rewrite <- list_lookup_fmap, <- Hk, list_lookup_fmap, Hi.
    destruct (System.masses sys !! i) as [a|] eqn:Ha; [|done].
    injection Hi' as _ _ _ <-. by eapply (proj1 (Forall_lookup _ _) Hfree). }
  assert (Hm2 : Forall (λ a, Mass.m a ≠ 0%R) ms2).
  { apply Forall_lookup. intros i a2 Hi.
    assert (Hi' : kinetic <$> System.masses sys !! i = Some (kinetic a2))
      by by rewrite <- list_lookup_fmap, <- Hk, list_lookup_fmap, Hi.
    destruct (System.masses sys !! i) as [a|] eqn:Ha; [|done].
    injection Hi' as <- _ _ _. by eapply (proj1 (Forall_lookup _ _) Hm). }
  rewrite (momentum_applyForces dt ms2 Hfree2 Hm2).
  rewrite (total_force_loop _ _ _ Hu), total_force_zero.
  rewrite (momentum_kinetic _ _ Hk).
  destruct (momentum (System.masses sys)).
  apply V2_eq; cbv [vadd vscale Zero szero sadd smul exactR vx vy]; lra.
Qed.

Lemma momentum_conserved_witness :
  ∃ sys', System.process (1 / 10)%R Pair.built = Some sys' ∧
    momentum (System.masses sys') = momentum (System.masses Pair.built).
Proof.
  apply (momentum_conserved (1 / 10)%R Pair.built).
  - reflexivity.
  - repeat constructor.
  - repeat constructor; simpl; lra.
  - intros s i j a b Hs H1 H2 Ha Hb.
    apply list_elem_of_singleton in Hs. subst s.
    injection H1 as <-. injection H2 as <-.
    injection Ha as <-. injection Hb as <-.
    simpl. intros [= Hy]. lra.
Defined.

(** C1 (as amended).  The first test, one call of [process(dt)] with
    [dt = .1]: the force accumulated on mass2 is [(0, 3)], its velocity
    [(0, 0.1)] and its position [(0, -2.99)].  In [float] the force is
    exactly [(0, 3)], the velocity is [(0, 13421774 * 2^-27)], the float
    after [.1f], and the position is [(0, -2.99f)]; in exact arithmetic
    the three values are the decimals themselves.  The contents of the
    uninitialised [forcesApplied] do not matter. *)
Theorem first_step_of_test1 :
  (∀ junk, ∃ sys sys' a,
     FirstTest.s32 junk = Some sys ∧
     System.process FirstTest.dt32 sys = Some sys' ∧
     System.masses sys' !! 1 = Some a ∧
     Mass.forcesApplied a = V2 (F32.of_Z 0) (F32.of_Z 3) ∧
     Mass.velocity a = V2 (F32.of_Z 0) (S754_finite false 13421774 (-27)) ∧
     Mass.position a = V2 (F32.of_Z 0) (F32.of_decimal (-299) 2)) ∧
  (∀ junk, ∃ sys sys' a,
     FirstTest.sR junk = Some sys ∧
     System.process FirstTest.dtR sys = Some sys' ∧
     System.masses sys' !! 1 = Some a ∧
     Mass.forcesApplied a = V2 0%R 3%R ∧
     Mass.velocity a = V2 0%R (1 / 10)%R ∧
     Mass.position a = V2 0%R (-299 / 100)%R).
Proof.
  split; intros junk.
  - eexists _, _, _. split; [reflexivity|].
    split; [vm_compute; reflexivity|].
    split; [reflexivity|]. by vm_compute.
  - destruct (FirstTest_first_step 0%R (-3)%R 3%R 2%R FirstTest.dtR junk) as [Hs Hp].
    eexists _, _, _. split; [exact Hs|]. split; [exact Hp|].
    split; [reflexivity|].
    cbv [Mass.forcesApplied Mass.velocity Mass.position FirstTest.dtR
         vadd vsub vscale norm Zero szero sadd ssub smul sdiv ssqrt srecip
         exactR vx vy Spring.force_of].
    assert (Hn : sqrt ((-3 - 0) * (-3 - 0) + (0 - 0) * (0 - 0)) = 3%R
                 ∧ sqrt ((0 - 0) * (0 - 0) + (-3 - 0) * (-3 - 0)) = 3%R).
    { split; apply sqrt_lem_1; lra. }
    destruct Hn as [_ Hn]. rewrite !Hn.
    repeat split; f_equal; lra.
Qed.

(** C1, as the specification words it, fails in [float]: after the step
    the force on mass2 is not [(0,-3)], its velocity is not [(0,-3.1f)] and
    its position is not [(0,-3.31f)]. *)
Lemma first_step_of_test1_counterexample :
  ∃ sys sys' a,
    FirstTest.s32 nan2 = Some sys ∧
    System.process FirstTest.dt32 sys = Some sys' ∧
    System.masses sys' !! 1 = Some a ∧
    Mass.forcesApplied a ≠ V2 (F32.of_Z 0) (F32.of_Z (-3)) ∧
    Mass.velocity a ≠ V2 (F32.of_Z 0) (F32.of_decimal (-31) 1) ∧
    Mass.position a ≠ V2 (F32.of_Z 0) (F32.of_decimal (-331) 2).
Proof.
  eexists _, _, _. split; [reflexivity|].
  split; [vm_compute; reflexivity|].
  split; [reflexivity|].
  repeat split; vm_compute; discriminate.
Qed.

(** C7 (as amended).  In [float], when the two ends of a spring of a
    well-wired system are at one position, whatever [k], [l] and the
    position: [force()] returns normally, without error or fallback, the
    vector [(NaN, NaN)]; [process(dt)] returns normally as well, and leaves
    [(NaN, NaN)] as the accumulated force of both ends and, for an end that
    is not fixed, as its velocity and its position. *)
Theorem force_coincident_is_nan (sys : System.t spec_float) (dt : spec_float)
    (s : Spring.t spec_float) (i j : nat) (a b : Mass.t spec_float) :
  wired sys = true → s ∈ System.springs sys →
  Spring.mass1 s = Some i → Spring.mass2 s = Some j →
  System.masses sys !! i = Some a → System.masses sys !! j = Some b →
  Mass.position a = Mass.position b →
  Spring.force s (System.masses sys) = Some nan2 ∧
  ∃ sys', System.process dt sys = Some sys' ∧
    ∀ n c, n = i ∨ n = j → System.masses sys !! n = Some c →
      ∃ c', System.masses sys' !! n = Some c' ∧
        Mass.forcesApplied c' = nan2 ∧
        (Mass.isFixed c = false →
           Mass.velocity c' = nan2 ∧ Mass.position c' = nan2).
Proof.
  intros Hw Hin H1 H2 Ha Hb Hp.
  assert (Hf : Spring.force s (System.masses sys) = Some nan2).
  { apply force_Some. exists i, j, a, b. repeat split; try done.
    by rewrite Hp, force_of_coincident. }
  split; [done|].
  destruct (process_total dt sys Hw) as [sys' Hs].
  exists sys'. split; [done|].
  intros n c Hn Hc. eexists. split; [by eapply process_lookup|].
  rewrite (net_force_nan _ _ n s Zero Hin Hf)
    by (destruct Hn as [-> | ->]; [by left|by right]).
  unfold System.applyForces_mass.
  cbn [Mass.isFixed Mass.set_forcesApplied Mass.forcesApplied Mass.velocity
       Mass.position Mass.m].
  destruct (Mass.isFixed c); [done|].
  cbn [Mass.forcesApplied Mass.velocity Mass.position].
  rewrite vscale_nan_r, vadd_nan_r, vscale_nan_r, vadd_nan_r. done.
Qed.

Lemma force_coincident_is_nan_witness :
  Spring.force (Spring.mk (F32.of_Z 3) (F32.of_Z 2) (Some 0) (Some 1))
    (System.masses Coincident.built) = Some nan2.
Proof.
  exact (proj1 (force_coincident_is_nan Coincident.built FirstTest.dt32
                  (Spring.mk (F32.of_Z 3) (F32.of_Z 2) (Some 0) (Some 1))
                  0 1 _ _ eq_refl (list_elem_of_here _ _)
                  eq_refl eq_refl eq_refl eq_refl eq_refl)).
Defined.

(** C7, as the specification words it, fails: with the moving mass of the
    first test placed on the fixed one, [force()] returns [(NaN, NaN)], and
    one call of [process] returns normally with NaN as the force, the
    velocity and the position of the moving mass. *)
Lemma force_coincident_counterexample :
  ∃ s f sys' a,
    System.springs Coincident.built = [s] ∧
    Spring.force s (System.masses Coincident.built) = Some f ∧
    F32.is_nan (vx f) = true ∧ F32.is_nan (vy f) = true ∧
    System.process FirstTest.dt32 Coincident.built = Some sys' ∧
    System.masses sys' !! 1 = Some a ∧
    Mass.forcesApplied a = nan2 ∧ Mass.velocity a = nan2 ∧ Mass.position a = nan2.
Proof.
  eexists _, _, _, _. split; [reflexivity|].
  split; [vm_compute; reflexivity|].
  split; [reflexivity|]. split; [reflexivity|].
  split; [vm_compute; reflexivity|].
  split; [reflexivity|]. by vm_compute.
Qed.

(** C8 (as amended).  Nothing validates the scalar mass: [Mass(x, y, m)]
    is a free mass of mass [m] for every [m], and the constructor of
    [System] keeps the masses it is given.  In [float], [applyForces] on a
    free mass of mass zero, with [dt] finite and not zero, divides by zero:
    every coefficient of the new velocity and of the new position is Inf
    or NaN. *)
Theorem zero_mass_is_divided_by :
  (∀ (x y m0 : spec_float) (junk : Vector2 spec_float),
     Mass.m (Mass.free x y m0 junk) = m0 ∧
     Mass.isFixed (Mass.free x y m0 junk) = false) ∧
  (∀ masses_ springs_ connectivity (sys : System.t spec_float),
     System.create masses_ springs_ connectivity = Some sys →
     System.masses sys = masses_) ∧
  (∀ (a : Mass.t spec_float) (dt : spec_float),
     Mass.isFixed a = false → F32.is_zero (Mass.m a) = true →
     F32.is_finite_nonzero dt = true →
     let a' := System.applyForces_mass dt a in
     F32.nonfinite (vx (Mass.velocity a')) = true ∧
     F32.nonfinite (vy (Mass.velocity a')) = true ∧
     F32.nonfinite (vx (Mass.position a')) = true ∧
     F32.nonfinite (vy (Mass.position a')) = true).
Proof.
  split; [done|]. split.
  - intros masses_ springs_ connectivity sys Hc. unfold System.create in Hc.
    destruct (System.wire_all connectivity springs_); [|done].
    by injection Hc as <-.
  - intros a dt Hfree Hz Hdt. unfold System.applyForces_mass. rewrite Hfree.
    destruct (Mass.m a) as [sz| | |] eqn:Hm; try done.
    destruct (div_by_zero dt sz Hdt) as [si Hinf].
    cbn [Mass.velocity Mass.position vadd vscale vx vy sadd smul sdiv binary32].
    rewrite Hinf.
    repeat split;
      repeat first [apply add_nonfinite_r | apply mul_nonfinite_r; [done|]
                   | apply mul_inf_l].
Qed.

(** C8, as the specification words it, fails: the first test with
    [Mass(0, -3, 0)] is built, and one call of [process] returns normally
    with the velocity [(NaN, +Inf)] for that mass. *)
Lemma zero_mass_counterexample :
  ∃ sys sys' a a',
    ZeroMass.s = Some sys ∧
    System.masses sys !! 1 = Some a ∧
    Mass.isFixed a = false ∧ Mass.m a = S754_zero false ∧
    System.process FirstTest.dt32 sys = Some sys' ∧
    System.masses sys' !! 1 = Some a' ∧
    Mass.velocity a' = V2 S754_nan (S754_infinity false) ∧
    Mass.position a' = V2 S754_nan (S754_infinity false).
Proof.
  eexists _, _, _, _. split; [reflexivity|].
  split; [reflexivity|]. split; [reflexivity|]. split; [reflexivity|].
  split; [vm_compute; reflexivity|].
  split; [reflexivity|]. by vm_compute.
Qed.

Lemma zero_mass_is_divided_by_witness :
  F32.nonfinite
    (vy (Mass.velocity
           (System.applyForces_mass FirstTest.dt32
              (Mass.mk (S754_zero false) (V2 (F32.of_Z 0) (F32.of_Z (-3)))
                 (V2 (F32.of_Z 0) (F32.of_Z 0))
                 (V2 (F32.of_Z 0) (F32.of_Z 3)) false)))) = true.
Proof.
  exact (proj1 (proj2 (proj2 (proj2 zero_mass_is_divided_by)
    (Mass.mk (S754_zero false) (V2 (F32.of_Z 0) (F32.of_Z (-3)))
       (V2 (F32.of_Z 0) (F32.of_Z 0)) (V2 (F32.of_Z 0) (F32.of_Z 3)) false)
    FirstTest.dt32 eq_refl eq_refl eq_refl))).
Defined.

(** C4 (as amended).  The constructor tests no index.  With every spring
    index of the connectivity in range (the keys of the map are distinct),
    construction returns a system that owns the masses and as many springs
    as given, each listed spring holding the two mass indices of its entry,
    in range or not; when one of them is out of range the first call of
    [process] is undefined.  With a spring index out of range construction
    itself is undefined: nothing is reported in either case. *)
Theorem create_checks_nothing {T : Type} `{Scalar T}
    (masses_ : list (Mass.t T)) (springs_ : list (Spring.t T))
    (connectivity : System.Connectivity) :
  NoDup connectivity.*1 →
  (Forall (λ c, c.1 < length springs_) connectivity →
   ∃ sys, System.create masses_ springs_ connectivity = Some sys ∧
     System.masses sys = masses_ ∧
     length (System.springs sys) = length springs_ ∧
     (∀ i a b, (i, (a, b)) ∈ connectivity →
        ∃ s0 s, springs_ !! i = Some s0 ∧ System.springs sys !! i = Some s ∧
                wired_to a b s0 s) ∧
     ((∃ i a b, (i, (a, b)) ∈ connectivity ∧
                (length masses_ ≤ a ∨ length masses_ ≤ b)) →
      ∀ dt, System.process dt sys = None)) ∧
  (¬ Forall (λ c, c.1 < length springs_) connectivity →
   System.create masses_ springs_ connectivity = None).
Proof.
  intros Hnd. split.
  - intros Hr. destruct (wire_all_total connectivity springs_ Hr) as [ss' Hw].
    exists (System.mk masses_ ss'). unfold System.create. rewrite Hw. simpl.
    split; [done|]. split; [done|].
    split; [by apply wire_all_in_range in Hw as [_ ?]|].
    split; [intros i a b Hin; by eapply wire_all_entry|].
    intros (i & a & b & Hin & Hout) dt.
    destruct (System.process dt (System.mk masses_ ss')) as [sys'|] eqn:Hp; [|done].
    exfalso. apply process_Some in Hp as (ms2 & Hu & _). simpl in Hu.
    apply updateForces_loop_wired in Hu. rewrite length_fmap in Hu.
    destruct (wire_all_entry _ _ _ i a b Hw Hnd Hin) as (s0 & s & _ & Hs & ->).
    rewrite forallb_forall in Hu.
    specialize (Hu _ (proj1 (list_elem_of_In _ _) (list_elem_of_lookup_2 _ _ _ Hs))).
    apply wired_spring_true in Hu as (i' & j' & [= <-] & [= <-] & Hi' & Hj').
    lia.
  - intros Hr. unfold System.create.
    destruct (System.wire_all connectivity springs_) as [ss'|] eqn:Hw; [|done].
    by apply wire_all_in_range in Hw as [? _].
Qed.

Lemma create_checks_nothing_witness :
  ∃ sys, Dangling.s = Some sys ∧
    length (System.springs sys) = 1 ∧
    ∀ dt, System.process dt sys = None.
Proof.
  destruct (proj1 (create_checks_nothing (FirstTest.masses32 nan2) FirstTest.springs32
                     Dangling.connectivity
                     (NoDup_singleton 0))
                  ltac:(repeat constructor))
    as (sys & Hc & _ & Hl & _ & Hp).
  exists sys. split; [exact Hc|]. split; [exact Hl|].
  apply Hp. exists 0, 0, 7. split; [by left|]. right. simpl. lia.
Defined.

(** C4, as the specification words it, fails: with the connectivity
    [{0, {0, 7}}] and two masses the constructor returns a system whose
    spring 0 holds the mass index 7. *)
Lemma create_counterexample :
  ∃ sys s,
    Dangling.s = Some sys ∧
    length (System.masses sys) = 2 ∧
    System.springs sys !! 0 = Some s ∧
    Spring.mass1 s = Some 0 ∧ Spring.mass2 s = Some 7.
Proof. by eexists _, _. Qed.

(** C9.  For a mass index [n] in range, [displayMass(n, os)] appends to
    the stream exactly one line: the four scalars [position(0)],
    [position(1)], [velocity(0)], [velocity(1)] of the mass as it is at
    the call, in that order, one space between two of them and a line feed
    at the end, and nothing else (the only line feed of the text appended
    is the last, as long as the insertion of a scalar writes none).  In
    the loop of the tests the line is that of the state before the step. *)
Theorem displayMass_line {T : Type} `{Scalar T} (put : T → string) (n : nat)
    (os : string) (sys : System.t T) (a : Mass.t T) :
  System.masses sys !! n = Some a →
  let line := (put (vx (Mass.position a)) ++ " " ++ put (vy (Mass.position a))
               ++ " " ++ put (vx (Mass.velocity a)) ++ " "
               ++ put (vy (Mass.velocity a)) ++ LF)%string in
  System.displayMass put n os sys = Some (os ++ line)%string ∧
  (line_feeds (put (vx (Mass.position a))) = 0 →
   line_feeds (put (vy (Mass.position a))) = 0 →
   line_feeds (put (vx (Mass.velocity a))) = 0 →
   line_feeds (put (vy (Mass.velocity a))) = 0 →
   line_feeds line = 1) ∧
  (∀ dt sys', System.process dt sys = Some sys' →
     run_test put 1 n dt os sys = Some ((os ++ line)%string, sys')).
Proof.
  intros Hn line.
  assert (Hd : System.displayMass put n os sys = Some (os ++ line)%string).
  { unfold System.displayMass. by rewrite Hn. }
  split; [done|]. split.
  - intros H1 H2 H3 H4. unfold line.
    rewrite !line_feeds_app, H1, H2, H3, H4. reflexivity.
  - intros dt sys' Hp. cbn [run_test]. rewrite Hd. simpl. by rewrite Hp.
Qed.

Lemma displayMass_line_witness :
  System.displayMass F32.show 1 "" (FirstTest.built32 nan2)
  = Some ("0 -12582912p-22 0 0" ++ LF)%string.
Proof.
  exact (proj1 (displayMass_line F32.show 1 "" (FirstTest.built32 nan2) _ eq_refl)).
Defined.

(** ** Further properties of the operations *)

Section MoreLemmas.
Context {T : Type} `{Scalar T}.
Implicit Types (ms : list (Mass.t T)) (ss : list (Spring.t T)).
Implicit Types (s : Spring.t T) (sys : System.t T) (dt : T).

Lemma forcesZero_of_kinetic ms1 ms2 :
  kinetic <$> ms1 = kinetic <$> ms2 →
  Mass.set_forcesApplied Zero <$> ms1 = Mass.set_forcesApplied Zero <$> ms2.
Proof.
  intros Hk.
  pose (g := λ q : T * Vector2 T * Vector2 T * bool,
               Mass.mk q.1.1.1 q.1.1.2 q.1.2 Zero q.2).
  assert (Hg : ∀ ms, Mass.set_forcesApplied Zero <$> ms = g <$> (kinetic <$> ms)).
  { intros ms. rewrite <- list_fmap_compose. apply list_fmap_ext. by intros i [] _. }
  by rewrite !Hg, Hk.
Qed.

Lemma process_None_unwired dt sys :
  wired sys = false → System.process dt sys = None.
Proof.
  intros Hw. destruct (System.process dt sys) as [sys'|] eqn:Hp; [|done].
  apply process_Some in Hp as (ms2 & Hu & _).
  apply updateForces_loop_wired in Hu. rewrite length_fmap in Hu.
  unfold wired in Hw. congruence.
Qed.

Lemma process_mass_flags dt sys sys' :
  System.process dt sys = Some sys' →
  (λ a, (Mass.m a, Mass.isFixed a)) <$> System.masses sys'
  = (λ a, (Mass.m a, Mass.isFixed a)) <$> System.masses sys.
Proof.
  intros Hp. apply list_eq. intros n. rewrite !list_lookup_fmap.
  destruct (System.masses sys !! n) as [a|] eqn:Hn.
  - rewrite (process_lookup dt sys sys' n a Hp Hn). simpl.
    unfold System.applyForces_mass. simpl.
    destruct (Mass.isFixed a) eqn:Hf; simpl; by rewrite ?Hf.
  - apply lookup_ge_None in Hn. rewrite <- (process_length _ _ _ Hp) in Hn.
    apply lookup_ge_None in Hn. by rewrite Hn.
Qed.

Lemma steps_Some_inv n dt sys sys' :
  System.steps (S n) dt sys = Some sys' →
  ∃ sys1, System.process dt sys = Some sys1 ∧ System.steps n dt sys1 = Some sys'.
Proof.
  simpl. destruct (System.process dt sys) as [sys1|]; [|done].
  intros Hs. by exists sys1.
Qed.

Lemma steps_springs n dt sys sys' :
  System.steps n dt sys = Some sys' → System.springs sys' = System.springs sys.
Proof.
  revert sys. induction n as [|n IH]; intros sys Hs.
  - by injection Hs as <-.
  - apply steps_Some_inv in Hs as (sys1 & H1 & Hs).
    rewrite (IH _ Hs). by eapply process_springs.
Qed.

Lemma steps_mass_flags n dt sys sys' :
  System.steps n dt sys = Some sys' →
  (λ a, (Mass.m a, Mass.isFixed a)) <$> System.masses sys'
  = (λ a, (Mass.m a, Mass.isFixed a)) <$> System.masses sys.
Proof.
  revert sys. induction n as [|n IH]; intros sys Hs.
  - by injection Hs as <-.
  - apply steps_Some_inv in Hs as (sys1 & H1 & Hs).
    rewrite (IH _ Hs). by eapply process_mass_flags.
Qed.


Lemma wired_lookup sys i s :
  wired sys = true → System.springs sys !! i = Some s →
  wired_spring (length (System.masses sys)) s = true.
Proof.
  unfold wired. rewrite forallb_forall. intros Hw Hs.
  apply Hw, list_elem_of_In. by eapply list_elem_of_lookup_2.
Qed.

Lemma wired_intro sys :
  (∀ i s, System.springs sys !! i = Some s →
          wired_spring (length (System.masses sys)) s = true) →
  wired sys = true.
Proof.
  intros Hw. unfold wired. apply forallb_forall. intros s Hs.
  apply list_elem_of_In, list_elem_of_lookup in Hs as [i Hi]. by eapply Hw.
Qed.

Lemma wire_keeps_k_l (c : nat * (nat * nat)) ss ss' :
  System.wire c ss = Some ss' →
  (λ s, (Spring.k s, Spring.l s)) <$> ss' = (λ s, (Spring.k s, Spring.l s)) <$> ss.
Proof.
  intros Hw. apply list_eq. intros i. rewrite !list_lookup_fmap.
  apply wire_Some in Hw as (Hlt & _ & Ho & Hc).
  destruct (decide (i = c.1)) as [->|Hne]; [|by rewrite Ho].
  destruct (lookup_lt_is_Some_2 ss c.1 Hlt) as [s0 Hs0].
  by rewrite (Hc s0 Hs0), Hs0.
Qed.

Lemma wire_all_keeps_k_l (connectivity : System.Connectivity) ss ss' :
  System.wire_all connectivity ss = Some ss' →
  (λ s, (Spring.k s, Spring.l s)) <$> ss' = (λ s, (Spring.k s, Spring.l s)) <$> ss.
Proof.
  revert ss. induction connectivity as [|c rest IH]; intros ss Hw; simpl in Hw.
  - by injection Hw as <-.
  - destruct (System.wire c ss) as [ss1|] eqn:H1; [|done]. simpl in Hw.
    rewrite (IH _ Hw). by eapply wire_keeps_k_l.
Qed.

Lemma create_Some (masses_ : list (Mass.t T)) ss (connectivity : System.Connectivity) sys :
  System.create masses_ ss connectivity = Some sys ↔
  ∃ ss', System.wire_all connectivity ss = Some ss' ∧ sys = System.mk masses_ ss'.
Proof.
  unfold System.create.
  destruct (System.wire_all connectivity ss) as [ss'|]; simpl; split.
  - intros [= <-]. by exists ss'.
  - intros (ss2 & Hss & ->). by injection Hss as ->.
  - done.
  - by intros (? & ? & _).
Qed.
End MoreLemmas.

(** X1.  [process] never reads what [forcesApplied] holds when it is
    called: two systems with the same springs whose masses differ in
    [forcesApplied] only give the same result.  In particular the
    uninitialised [forcesApplied] of a new [Mass] is harmless. *)
Theorem process_ignores_accumulated_force {T : Type} `{Scalar T} (dt : T)
    (sys1 sys2 : System.t T) :
  System.springs sys1 = System.springs sys2 →
  kinetic <$> System.masses sys1 = kinetic <$> System.masses sys2 →
  System.process dt sys1 = System.process dt sys2.
Proof.
  intros Hs Hk. unfold System.process, System.updateForces, System.forcesZero.
  cbn [System.masses System.springs].
  by rewrite (forcesZero_of_kinetic _ _ Hk), Hs.
Qed.

Lemma process_ignores_accumulated_force_witness :
  System.process FirstTest.dt32 (FirstTest.built32 nan2)
  = System.process FirstTest.dt32
      (FirstTest.built32 (V2 (F32.of_Z 3) (F32.of_Z 2))).
Proof.
  exact (process_ignores_accumulated_force FirstTest.dt32
           (FirstTest.built32 nan2)
           (FirstTest.built32 (V2 (F32.of_Z 3) (F32.of_Z 2))) eq_refl eq_refl).
Defined.

(** X2.  Wiring is an invariant of [process]: from a well-wired system
    any number of steps returns, and the system reached has the same
    springs, as many masses with the same [m] and [isFixed], and is well
    wired again. *)
Theorem steps_keep_wiring {T : Type} `{Scalar T} (n : nat) (dt : T)
    (sys : System.t T) :
  wired sys = true →
  ∃ sys', System.steps n dt sys = Some sys' ∧
    System.springs sys' = System.springs sys ∧
    (λ a, (Mass.m a, Mass.isFixed a)) <$> System.masses sys'
    = (λ a, (Mass.m a, Mass.isFixed a)) <$> System.masses sys ∧
    wired sys' = true.
Proof.
  intros Hw. destruct (steps_total n dt sys Hw) as [sys' Hs].
  exists sys'. split; [done|].
  pose proof (steps_springs _ _ _ _ Hs) as Hsp.
  pose proof (steps_mass_flags _ _ _ _ Hs) as Hmf.
  split; [done|]. split; [done|].
  unfold wired in *. rewrite Hsp.
  assert (Hl : length (System.masses sys') = length (System.masses sys)).
  { by rewrite <- (length_fmap (λ a, (Mass.m a, Mass.isFixed a))), Hmf, length_fmap. }
  by rewrite Hl.
Qed.

Lemma steps_keep_wiring_witness :
  ∃ sys', System.steps 1000 FirstTest.dt32 (FirstTest.built32 nan2) = Some sys' ∧
    wired sys' = true.
Proof.
  destruct (steps_keep_wiring 1000 FirstTest.dt32 (FirstTest.built32 nan2) eq_refl)
    as (sys' & Hs & _ & _ & Hw).
  exists sys'. split; [exact Hs|exact Hw].
Defined.

(** X3.  [process] is defined exactly on the well-wired systems: with a
    spring whose pointer is null or outside the vector of masses the step
    is undefined, whatever the masses and [dt]. *)
Theorem process_defined_iff_wired {T : Type} `{Scalar T} (dt : T)
    (sys : System.t T) :
  is_Some (System.process dt sys) ↔ wired sys = true.
Proof.
  split.
  - intros [sys' Hp]. destruct (wired sys) eqn:Hw; [done|].
    by rewrite (process_None_unwired dt sys Hw) in Hp.
  - intros Hw. destruct (process_total dt sys Hw) as [sys' Hp]. by exists sys'.
Qed.

(** X4.  A spring that the connectivity does not list is left as it was
    given to the constructor; when it was given with a null pointer, as
    [{.k = .., .l = ..}] is, every call of [process] on the system built
    is undefined. *)
Theorem unlisted_spring_stays_null {T : Type} `{Scalar T}
    (masses_ : list (Mass.t T)) (springs_ : list (Spring.t T))
    (connectivity : System.Connectivity) (sys : System.t T) (i : nat)
    (s0 : Spring.t T) :
  System.create masses_ springs_ connectivity = Some sys →
  springs_ !! i = Some s0 → i ∉ connectivity.*1 →
  System.springs sys !! i = Some s0 ∧
  (Spring.mass1 s0 = None ∨ Spring.mass2 s0 = None →
   ∀ dt, System.process dt sys = None).
Proof.
  intros (ss' & Hw & ->)%create_Some Hi Hout.
  assert (Hs : ss' !! i = Some s0) by by rewrite (wire_all_other _ _ _ i Hw Hout).
  split; [done|]. intros Hnull dt. apply process_None_unwired.
  destruct (wired (System.mk masses_ ss')) eqn:Hwd; [|done].
  pose proof (wired_lookup _ i s0 Hwd Hs) as Hs0.
  apply wired_spring_true in Hs0 as (a & b & Ha & Hb & _).
  destruct Hnull; congruence.
Qed.

Lemma unlisted_spring_stays_null_witness :
  ∃ sys,
    System.create (FirstTest.masses32 nan2)
      (FirstTest.springs32 ++ FirstTest.springs32) FirstTest.connectivity
    = Some sys ∧
    System.springs sys !! 1 = Some (Spring.init (F32.of_Z 3) (F32.of_Z 2)) ∧
    System.process FirstTest.dt32 sys = None.
Proof.
  eexists. split; [reflexivity|].
  destruct (unlisted_spring_stays_null (FirstTest.masses32 nan2)
              (FirstTest.springs32 ++ FirstTest.springs32)
              FirstTest.connectivity _ 1
              (Spring.init (F32.of_Z 3) (F32.of_Z 2)) eq_refl eq_refl)
    as [Hs Hp].
  - intros Hin. apply list_elem_of_singleton in Hin. discriminate Hin.
  - split; [exact Hs|]. apply Hp. by left.
Defined.

(** X5.  When the connectivity has one entry for every spring and all its
    indices are in range, the constructor returns a well-wired system, and
    any number of steps on it returns. *)
Theorem covering_connectivity_wired {T : Type} `{Scalar T}
    (masses_ : list (Mass.t T)) (springs_ : list (Spring.t T))
    (connectivity : System.Connectivity) :
  covering (length masses_) (length springs_) connectivity →
  ∃ sys, System.create masses_ springs_ connectivity = Some sys ∧
    wired sys = true ∧
    ∀ n dt, is_Some (System.steps n dt sys).
Proof.
  intros (Hnd & Hall & Hr).
  assert (Hr1 : Forall (λ c, c.1 < length springs_) connectivity).
  { eapply Forall_impl; [exact Hr|]. by intros c (? & _). }
  destruct (wire_all_total connectivity springs_ Hr1) as [ss' Hw].
  exists (System.mk masses_ ss').
  split; [apply create_Some; by exists ss'|].
  assert (Hwd : wired (System.mk masses_ ss') = true).
  { apply wired_intro. intros i s Hs. cbn [System.masses System.springs] in *.
    assert (Hi : i < length springs_).
    { apply wire_all_in_range in Hw as [_ <-]. by eapply lookup_lt_Some. }
    apply Hall, list_elem_of_fmap in Hi as ([i' [a b]] & -> & Hin).
    destruct (wire_all_entry _ _ _ _ a b Hw Hnd Hin) as (s0 & s1 & _ & Hs1 & ->).
    cbn [fst] in Hs. rewrite Hs in Hs1. injection Hs1 as ->.
    apply wired_spring_true. exists a, b.
    apply (proj1 (Forall_forall _ _) Hr) in Hin as (_ & Ha & Hb). done. }
  split; [done|]. intros n dt.
  destruct (steps_total n dt _ Hwd) as [sys' Hs]. by exists sys'.
Qed.

Lemma covering_connectivity_wired_witness :
  ∃ sys, FirstTest.s32 nan2 = Some sys ∧ wired sys = true.
Proof.
  destruct (covering_connectivity_wired (FirstTest.masses32 nan2)
              FirstTest.springs32 FirstTest.connectivity) as (sys & Hc & Hw & _).
  - split; [exact (NoDup_singleton 0)|]. split.
    + intros i Hi. cbn in Hi. assert (i = 0) as -> by lia. by left.
    + repeat constructor; cbn; lia.
  - exists sys. split; [exact Hc|exact Hw].
Defined.

(** X6.  The constructor changes no [k] and no [l], and owns the masses
    as they were given. *)
Theorem create_keeps_k_l {T : Type} `{Scalar T}
    (masses_ : list (Mass.t T)) (springs_ : list (Spring.t T))
    (connectivity : System.Connectivity) (sys : System.t T) :
  System.create masses_ springs_ connectivity = Some sys →
  System.masses sys = masses_ ∧
  (λ s, (Spring.k s, Spring.l s)) <$> System.springs sys
  = (λ s, (Spring.k s, Spring.l s)) <$> springs_.
Proof.
  intros (ss' & Hw & ->)%create_Some. split; [done|].
  by apply wire_all_keeps_k_l in Hw.
Qed.

Lemma create_keeps_k_l_witness :
  ∃ sys, Dangling.s = Some sys ∧
    (λ s, (Spring.k s, Spring.l s)) <$> System.springs sys
    = [(F32.of_Z 3, F32.of_Z 2)].
Proof.
  eexists. split; [reflexivity|].
  exact (proj2 (create_keeps_k_l (FirstTest.masses32 nan2) FirstTest.springs32
                  Dangling.connectivity _ eq_refl)).
Defined.

(** X7.  [forcesZero] and [updateForces] write nothing of a mass but its
    [forcesApplied], and [applyForces] never writes [forcesApplied]: the
    force accumulated in a step can still be read after it. *)
Theorem accumulation_writes_forces_only {T : Type} `{Scalar T}
    (dt : T) (sys : System.t T) :
  kinetic <$> System.masses (System.forcesZero sys) = kinetic <$> System.masses sys ∧
  (∀ sys', System.updateForces sys = Some sys' →
     kinetic <$> System.masses sys' = kinetic <$> System.masses sys ∧
     System.springs sys' = System.springs sys) ∧
  Mass.forcesApplied <$> System.masses (System.applyForces dt sys)
  = Mass.forcesApplied <$> System.masses sys.
Proof.
  split; [apply forcesZero_kinetic|]. split.
  - intros sys' (ms' & Hu & ->)%updateForces_Some.
    split; [by eapply updateForces_loop_kinetic|done].
  - cbn [System.applyForces System.masses]. rewrite <- list_fmap_compose.
    apply list_fmap_ext. intros i a _. unfold System.applyForces_mass. simpl.
    by destruct (Mass.isFixed a).
Qed.



(** ** Exact arithmetic: further lemmas *)


Section MoreExact.
Local Open Scope R_scope.
Implicit Types (ms : list (Mass.t R)) (ss : list (Spring.t R)).
Implicit Types (s : Spring.t R) (sys : System.t R) (a : Mass.t R).


















End MoreExact.







Section Equilibrium.
Local Open Scope R_scope.

End Equilibrium.









(** ** [float]: how NaN travels *)

Section MoreFloat.
Implicit Types (x y : spec_float) (u v : Vector2 spec_float).

Lemma is_nan_eq x : F32.is_nan x = true → x = S754_nan.
Proof. by destruct x. Qed.

Lemma mul_nan_l x : F32.mul S754_nan x = S754_nan.
Proof. reflexivity. Qed.

Lemma add_nan_l x : F32.add S754_nan x = S754_nan.
Proof. reflexivity. Qed.

Lemma sub_nan_l x : F32.sub S754_nan x = S754_nan.
Proof. reflexivity. Qed.

Lemma has_nan_vsub u v : has_nan u || has_nan v = true → has_nan (vsub v u) = true.
Proof.
  unfold has_nan, vsub. cbn [vx vy ssub binary32]. intros Hn.
  destruct (F32.is_nan (vx u)) eqn:H1; [apply is_nan_eq in H1; by rewrite H1, sub_nan_r|].
  destruct (F32.is_nan (vx v)) eqn:H2; [apply is_nan_eq in H2; by rewrite H2|].
  destruct (F32.is_nan (vy u)) eqn:H3;
    [apply is_nan_eq in H3; rewrite H3, sub_nan_r; by rewrite orb_true_r|].
  destruct (F32.is_nan (vy v)) eqn:H4; [|done].
  apply is_nan_eq in H4. rewrite H4. by rewrite orb_true_r.
Qed.

Lemma norm_nan u : has_nan u = true → norm u = S754_nan.
Proof.
  unfold has_nan, norm. cbn [ssqrt sadd smul binary32].
  intros [H1|H1]%orb_prop; apply is_nan_eq in H1; rewrite H1.
  - reflexivity.
  - by rewrite mul_nan_r, add_nan_r.
Qed.

(** A NaN coefficient in the position of either end makes [force()] NaN. *)
Lemma force_of_nan (k0 l0 : spec_float) u v :
  has_nan u || has_nan v = true → Spring.force_of k0 l0 u v = nan2.
Proof.
  intros Hn. unfold Spring.force_of.
  rewrite (norm_nan _ (has_nan_vsub u v Hn)).
  change (srecip S754_nan) with S754_nan.
  replace (vscale S754_nan (vsub v u)) with nan2 by reflexivity.
  apply vscale_nan_r.
Qed.

(** What a spring of NaN force does in a step to its two ends. *)
Lemma nan_force_step (sys sys' : System.t spec_float) (dt : spec_float)
    (s : Spring.t spec_float) (n : nat) (c : Mass.t spec_float) :
  System.process dt sys = Some sys' → s ∈ System.springs sys →
  Spring.force s (System.masses sys) = Some nan2 → attached n s →
  System.masses sys !! n = Some c →
  ∃ c', System.masses sys' !! n = Some c' ∧
    Mass.forcesApplied c' = nan2 ∧
    (Mass.isFixed c = false →
       Mass.velocity c' = nan2 ∧ Mass.position c' = nan2).
Proof.
  intros Hp Hin Hf Hn Hc. eexists. split; [by eapply process_lookup|].
  rewrite (net_force_nan _ _ n s Zero Hin Hf Hn).
  unfold System.applyForces_mass, Mass.set_forcesApplied.
  cbn [Mass.isFixed Mass.forcesApplied Mass.velocity Mass.position Mass.m].
  destruct (Mass.isFixed c); [done|].
  cbn [Mass.forcesApplied Mass.velocity Mass.position].
  rewrite vscale_nan_r, vadd_nan_r, vscale_nan_r, vadd_nan_r. done.
Qed.

(** One step keeps the NaN of a position or velocity coefficient. *)
Lemma nan_kept_step (sys sys' : System.t spec_float) (dt : spec_float)
    (n : nat) (a : Mass.t spec_float) :
  System.process dt sys = Some sys' → System.masses sys !! n = Some a →
  ∃ a', System.masses sys' !! n = Some a' ∧
    (F32.is_nan (vx (Mass.position a)) = true →
       F32.is_nan (vx (Mass.position a')) = true) ∧
    (F32.is_nan (vy (Mass.position a)) = true →
       F32.is_nan (vy (Mass.position a')) = true) ∧
    (F32.is_nan (vx (Mass.velocity a)) = true →
       F32.is_nan (vx (Mass.velocity a')) = true) ∧
    (F32.is_nan (vy (Mass.velocity a)) = true →
       F32.is_nan (vy (Mass.velocity a')) = true).
Proof.
  intros Hp Hn. eexists. split; [by eapply process_lookup|].
  unfold System.applyForces_mass, Mass.set_forcesApplied.
  cbn [Mass.isFixed Mass.forcesApplied Mass.velocity Mass.position Mass.m].
  destruct (Mass.isFixed a); [done|].
  cbn [Mass.forcesApplied Mass.velocity Mass.position vadd vscale vx vy
       sadd smul binary32].
  repeat split; intros ->%is_nan_eq; reflexivity.
Qed.
End MoreFloat.

(** X17.  In [float], NaN spreads through a spring: when a coefficient of
    the position of either end of a spring of a well-wired system is NaN,
    [process(dt)] returns normally and leaves [(NaN, NaN)] as the
    accumulated force of both ends and, for an end that is not fixed, as
    its velocity and its position. *)
Theorem nan_spreads_through_spring (sys : System.t spec_float)
    (dt : spec_float) (s : Spring.t spec_float) (i j : nat)
    (a b : Mass.t spec_float) :
  wired sys = true → s ∈ System.springs sys →
  Spring.mass1 s = Some i → Spring.mass2 s = Some j →
  System.masses sys !! i = Some a → System.masses sys !! j = Some b →
  has_nan (Mass.position a) || has_nan (Mass.position b) = true →
  ∃ sys', System.process dt sys = Some sys' ∧
    ∀ n c, n = i ∨ n = j → System.masses sys !! n = Some c →
      ∃ c', System.masses sys' !! n = Some c' ∧
        Mass.forcesApplied c' = nan2 ∧
        (Mass.isFixed c = false →
           Mass.velocity c' = nan2 ∧ Mass.position c' = nan2).
Proof.
  intros Hw Hin H1 H2 Ha Hb Hnan.
  assert (Hf : Spring.force s (System.masses sys) = Some nan2).
  { apply force_Some. exists i, j, a, b. repeat split; try done.
    by rewrite force_of_nan. }
  destruct (process_total dt sys Hw) as [sys' Hp].
  exists sys'. split; [done|]. intros n c Hn Hc.
  eapply nan_force_step; try done.
  destruct Hn as [-> | ->]; [by left|by right].
Qed.

Lemma nan_spreads_through_spring_witness :
  ∃ sys', System.process FirstTest.dt32
            (System.mk [Mass.fixed S754_nan (F32.of_Z 0) nan2;
                        Mass.free (F32.of_Z 0) (F32.of_Z (-3)) (F32.of_Z 3) nan2]
                       [Spring.mk (F32.of_Z 3) (F32.of_Z 2) (Some 0) (Some 1)])
          = Some sys' ∧
    ∃ c', System.masses sys' !! 1 = Some c' ∧ Mass.position c' = nan2.
Proof.
  destruct (nan_spreads_through_spring
              (System.mk [Mass.fixed S754_nan (F32.of_Z 0) nan2;
                          Mass.free (F32.of_Z 0) (F32.of_Z (-3)) (F32.of_Z 3) nan2]
                         [Spring.mk (F32.of_Z 3) (F32.of_Z 2) (Some 0) (Some 1)])
              FirstTest.dt32
              (Spring.mk (F32.of_Z 3) (F32.of_Z 2) (Some 0) (Some 1))
              0 1 _ _ eq_refl (list_elem_of_here _ _)
              eq_refl eq_refl eq_refl eq_refl eq_refl) as (sys' & Hp & Hm).
  exists sys'. split; [exact Hp|].
  destruct (Hm 1 _ (or_intror eq_refl) eq_refl) as (c' & Hc' & _ & Hv).
  exists c'. split; [exact Hc'|]. exact (proj2 (Hv eq_refl)).
Defined.

(** X18.  In [float], NaN never heals: a coefficient of the position or of
    the velocity of a mass that is NaN is still NaN after any number of
    steps. *)
Theorem nan_never_heals (n : nat) (dt : spec_float)
    (sys sys' : System.t spec_float) (i : nat) (a : Mass.t spec_float) :
  System.steps n dt sys = Some sys' → System.masses sys !! i = Some a →
  ∃ a', System.masses sys' !! i = Some a' ∧
    (F32.is_nan (vx (Mass.position a)) = true →
       F32.is_nan (vx (Mass.position a')) = true) ∧
    (F32.is_nan (vy (Mass.position a)) = true →
       F32.is_nan (vy (Mass.position a')) = true) ∧
    (F32.is_nan (vx (Mass.velocity a)) = true →
       F32.is_nan (vx (Mass.velocity a')) = true) ∧
    (F32.is_nan (vy (Mass.velocity a)) = true →
       F32.is_nan (vy (Mass.velocity a')) = true).
Proof.
  revert sys a. induction n as [|n IH]; intros sys a Hs Hi.
  - injection Hs as <-. by exists a.
  - apply steps_Some_inv in Hs as (sys1 & H1 & Hs).
    destruct (nan_kept_step sys sys1 dt i a H1 Hi) as (a1 & Hi1 & Hpx & Hpy & Hvx & Hvy).
    destruct (IH sys1 a1 Hs Hi1) as (a' & Hi' & Hpx' & Hpy' & Hvx' & Hvy').
    exists a'. split; [done|]. repeat split; auto.
Qed.

Lemma nan_never_heals_witness :
  ∃ sys' a',
    System.steps 2 FirstTest.dt32
      (System.mk [Mass.fixed (F32.of_Z 0) (F32.of_Z 0) nan2;
                  Mass.free S754_nan (F32.of_Z (-3)) (F32.of_Z 3) nan2]
                 [Spring.mk (F32.of_Z 3) (F32.of_Z 2) (Some 0) (Some 1)])
    = Some sys' ∧
    System.masses sys' !! 1 = Some a' ∧
    F32.is_nan (vx (Mass.position a')) = true.
Proof.
  destruct (nan_never_heals 2 FirstTest.dt32
              (System.mk [Mass.fixed (F32.of_Z 0) (F32.of_Z 0) nan2;
                          Mass.free S754_nan (F32.of_Z (-3)) (F32.of_Z 3) nan2]
                         [Spring.mk (F32.of_Z 3) (F32.of_Z 2) (Some 0) (Some 1)])
              _ 1 _ eq_refl eq_refl) as (a' & Ha' & Hpx & _).
  eexists _, a'. split; [reflexivity|]. split; [exact Ha'|].
  apply Hpx. reflexivity.
Defined.

(** ** The loop of the tests, [Test::execute] and [main] *)

Lemma string_app_assoc (s1 s2 s3 : string) :
  ((s1 ++ s2) ++ s3 = s1 ++ (s2 ++ s3))%string.
Proof.
  induction s1 as [|c s1 IH]; [done|].
  change (String c s1 ++ s2)%string with (String c (s1 ++ s2)%string).
  change (String c (s1 ++ s2)%string ++ s3)%string
    with (String c ((s1 ++ s2) ++ s3)%string).
  by rewrite IH.
Qed.

Lemma string_app_empty_r (s1 : string) : (s1 ++ "")%string = s1.
Proof.
  induction s1 as [|c s1 IH]; [done|].
  change (String c s1 ++ "")%string with (String c (s1 ++ "")%string).
  by rewrite IH.
Qed.

Lemma line_feeds_line {T : Type} (put : T → string) (a : Mass.t T) :
  (∀ x, line_feeds (put x) = 0) → line_feeds (Mass.print put "" a) = 1.
Proof.
  intros Hput. unfold Mass.print. by rewrite !line_feeds_app, !Hput.
Qed.

Lemma print_app {T : Type} (put : T → string) (os : string) (a : Mass.t T) :
  Mass.print put os a = (os ++ Mass.print put "" a)%string.
Proof. reflexivity. Qed.

Lemma line_feeds_pretty_N_go (x : N) (s : string) :
  line_feeds (pretty_N_go x s) = line_feeds s.
Proof.
  revert s. induction (N.lt_wf_0 x) as [x _ IH]. intros s.
  destruct (decide (x = 0)%N) as [->|Hx]; [by rewrite pretty_N_go_0|].
  rewrite pretty_N_go_step by lia.
  rewrite IH by (apply N.div_lt; lia).
  cbn [line_feeds]. unfold pretty_N_char.
  by repeat case_match.
Qed.

Lemma line_feeds_pretty_Z (z : Z) : line_feeds (pretty z) = 0.
Proof.
  destruct z as [|p|p]; [done| |].
  - change (pretty (Z.pos p)) with (pretty (N.pos p)).
    unfold pretty, pretty_N. destruct (decide (N.pos p = 0%N)); [done|].
    by rewrite line_feeds_pretty_N_go.
  - change (pretty (Z.neg p)) with ("-" +:+ pretty (N.pos p)).
    unfold pretty, pretty_N. destruct (decide (N.pos p = 0%N)); [done|].
    change ("-" +:+ pretty_N_go (N.pos p) "")
      with (String "-"%char (pretty_N_go (N.pos p) "")).
    cbn [line_feeds]. by rewrite line_feeds_pretty_N_go.
Qed.

(** The exact text of a [float] has no line feed. *)
Lemma line_feeds_show (x : spec_float) : line_feeds (F32.show x) = 0.
Proof.
  destruct x as [[]|[]| |s m e]; try done.
  unfold F32.show. rewrite !line_feeds_app, !line_feeds_pretty_Z.
  by destruct s.
Qed.

Section Loop.
Context {T : Type} `{Scalar T}.

Lemma run_test_wired (put : T → string) (t n : nat) (dt : T) (os : string)
    (sys : System.t T) :
  wired sys = true → n < length (System.masses sys) →
  ∃ out sys', run_test put t n dt os sys = Some ((os ++ out)%string, sys') ∧
    System.steps t dt sys = Some sys' ∧
    ((∀ x, line_feeds (put x) = 0) → line_feeds out = t).
Proof.
  revert os sys. induction t as [|t IH]; intros os sys Hw Hn.
  - exists ""%string, sys. split; [|done].
    cbn [run_test]. by rewrite string_app_empty_r.
  - destruct (lookup_lt_is_Some_2 _ _ Hn) as [a Ha].
    destruct (process_total dt sys Hw) as [sys1 H1].
    destruct (IH (Mass.print put os a) sys1) as (out & sys' & Hr & Hs & Hl).
    { by eapply process_wired. }
    { by rewrite (process_length _ _ _ H1). }
    exists (Mass.print put "" a ++ out)%string, sys'. split; [|split].
    + cbn [run_test]. unfold System.displayMass. rewrite Ha. simpl.
      rewrite H1. simpl. rewrite Hr.
      by rewrite (print_app put os a), string_app_assoc.
    + cbn [System.steps]. rewrite H1. exact Hs.
    + intros Hput. rewrite line_feeds_app, (line_feeds_line put a Hput), (Hl Hput).
      reflexivity.
Qed.
End Loop.

(** X19.  The loop of the tests, on a well-wired system and a mass index
    in range, returns after [timesteps] rounds: it has appended to the
    file one line per round (when the insertion of a scalar writes no line
    feed) and leaves the system in the state [timesteps] calls of
    [process] lead to.  With a mass index out of range, or a system that
    is not well wired, the first round is undefined. *)
Theorem test_loop_one_line_per_step {T : Type} `{Scalar T} (put : T → string)
    (timesteps n : nat) (dt : T) (os : string) (sys : System.t T) :
  (wired sys = true → n < length (System.masses sys) →
   ∃ out sys',
     run_test put timesteps n dt os sys = Some ((os ++ out)%string, sys') ∧
     System.steps timesteps dt sys = Some sys' ∧
     ((∀ x, line_feeds (put x) = 0) → line_feeds out = timesteps)) ∧
  (wired sys = false ∨ length (System.masses sys) ≤ n →
   run_test put (S timesteps) n dt os sys = None).
Proof.
  split; [apply run_test_wired|].
  intros Hbad. cbn [run_test]. unfold System.displayMass.
  destruct (System.masses sys !! n) as [a|] eqn:Ha; [|done]. simpl.
  destruct Hbad as [Hw|Hn].
  - by rewrite (process_None_unwired dt sys Hw).
  - apply lookup_lt_Some in Ha. lia.
Qed.

Lemma test_loop_one_line_per_step_witness :
  ∃ out sys',
    run_test F32.show 1000 1 FirstTest.dt32 "" (FirstTest.built32 nan2)
    = Some (out, sys') ∧
    line_feeds out = 1000.
Proof.
  destruct (proj1 (test_loop_one_line_per_step F32.show 1000 1 FirstTest.dt32 ""
                     (FirstTest.built32 nan2)) eq_refl)
    as (out & sys' & Hr & _ & Hl).
  - cbn. lia.
  - exists out, sys'. split; [exact Hr|]. exact (Hl line_feeds_show).
Defined.

Section Main.
Variables (put : spec_float → string) (junk : Vector2 spec_float).

(** A test of the table whose connectivity yields the well-wired system
    [sys]: what [execute] leaves behind. *)
Lemma execute_run (desc : string) (masses : list (Mass.t spec_float))
    (springs : list (Spring.t spec_float))
    (connectivity : System.Connectivity) (dt : spec_float)
    (timesteps : nat) (name : string) (n : nat) (w : Harness.World)
    (sys : System.t spec_float) :
  System.create masses springs connectivity = Some sys →
  wired sys = true → n < length (System.masses sys) →
  ∃ content,
    Harness.execute
      (Harness.mkTest desc
         (Harness.run put masses springs connectivity dt timesteps name n)) w
    = Some (Harness.mkWorld
              ((Harness.cout w ++ desc ++ "...") ++ "done" ++ LF)%string
              ((name, content) :: Harness.files w)) ∧
    ((∀ x, line_feeds (put x) = 0) → line_feeds content = timesteps).
Proof.
  intros Hc Hw Hn.
  destruct (run_test_wired put timesteps n dt "" sys Hw Hn)
    as (out & sys' & Hr & _ & Hl).
  exists out. split; [|done].
  unfold Harness.execute, Harness.run.
  cbn [Harness.runFunction Harness.description].
  rewrite Hc. cbn [mbind option_bind]. rewrite Hr. reflexivity.
Qed.
End Main.

Lemma execute_both (put : spec_float → string) (junk : Vector2 spec_float)
    (fs : list (string * string)) (t1 t2 : nat) :
  ∃ c1 c2,
    Harness.execute_all
      [Harness.test1_of put junk t1; Harness.test2_of put junk t2]
      (Harness.mkWorld "" fs) =
      Some (Harness.mkWorld
              ("One spring, one moving mass...done" ++ LF
               ++ "One mass, four springs attached...done" ++ LF)%string
              (("1m4s.dat"%string, c2) :: ("1m1s.dat"%string, c1) :: fs)) ∧
    ((∀ x, line_feeds (put x) = 0) → line_feeds c1 = t1 ∧ line_feeds c2 = t2).
Proof.
  pose (w0 := Harness.mkWorld "" fs).
  assert (Hc1 : System.create (FirstTest.masses32 junk) FirstTest.springs32
                  FirstTest.connectivity = Some (FirstTest.built32 junk))
    by reflexivity.
  assert (Hw1 : wired (FirstTest.built32 junk) = true) by reflexivity.
  assert (Hn1 : 1 < length (System.masses (FirstTest.built32 junk)))
    by (cbn; lia).
  destruct (execute_run put "One spring, one moving mass" _ _ _ FirstTest.dt32
              t1 "1m1s.dat" 1 w0 _ Hc1 Hw1 Hn1) as (c1 & H1 & Hl1).
  pose (sys2 := System.mk (Harness.masses2 junk)
                 ((λ ii, Spring.mk (F32.of_Z 2) (F32.of_Z 2) (Some ii) (Some 4))
                    <$> seq 0 4)).
  assert (Hc2 : System.create (Harness.masses2 junk) Harness.springs2
                  Harness.connectivity2 = Some sys2) by reflexivity.
  assert (Hw2 : wired sys2 = true) by reflexivity.
  assert (Hn2 : 4 < length (System.masses sys2)) by (cbn; lia).
  pose (w1 := Harness.mkWorld
                ((Harness.cout w0 ++ "One spring, one moving mass" ++ "...")
                   ++ "done" ++ LF)%string
                (("1m1s.dat"%string, c1) :: Harness.files w0)).
  destruct (execute_run put "One mass, four springs attached" _ _ _
              (F32.of_decimal 1 2) t2 "1m4s.dat" 4 w1 _ Hc2 Hw2 Hn2)
    as (c2 & H2 & Hl2).
  exists c1, c2. split; [|by intros Hput; split; [apply Hl1|apply Hl2]].
  unfold Harness.test1_of, Harness.test2_of.
  cbn [Harness.execute_all]. fold w0.
  rewrite H1. cbn [mbind option_bind]. fold w1. rewrite H2.
  reflexivity.
Qed.

(** X20.  [main] runs the two tests of the table to the end, whatever the
    uninitialised forces hold: it writes
    "One spring, one moving mass...done" and
    "One mass, four springs attached...done", each followed by a line
    feed, to [std::cout], and the files "1m1s.dat" and "1m4s.dat", of 1000
    and 10000 lines (when the insertion of a [float] writes no line feed). *)
Theorem main_runs_both_tests (put : spec_float → string)
    (junk : Vector2 spec_float) (fs : list (string * string)) :
  ∃ c1 c2,
    Harness.main put junk fs =
      Some (Harness.mkWorld
              ("One spring, one moving mass...done" ++ LF
               ++ "One mass, four springs attached...done" ++ LF)%string
              (("1m4s.dat"%string, c2) :: ("1m1s.dat"%string, c1) :: fs)) ∧
    ((∀ x, line_feeds (put x) = 0) →
     line_feeds c1 = 1000 ∧ line_feeds c2 = 10000).
Proof.
  unfold Harness.main, Harness.tests, Harness.test1, Harness.test2.
  apply execute_both.
Qed.

Lemma main_runs_both_tests_witness :
  ∃ c1 c2,
    Harness.main F32.show nan2 [] =
      Some (Harness.mkWorld
              ("One spring, one moving mass...done" ++ LF
               ++ "One mass, four springs attached...done" ++ LF)%string
              [("1m4s.dat"%string, c2); ("1m1s.dat"%string, c1)]) ∧
    line_feeds c1 = 1000 ∧ line_feeds c2 = 10000.
Proof.
  destruct (main_runs_both_tests F32.show nan2 []) as (c1 & c2 & Hm & Hl).
  exists c1, c2. split; [exact Hm|]. exact (Hl line_feeds_show).
Defined.

Lemma process_defined_iff_wired_witness :
  is_Some (System.process FirstTest.dt32 (FirstTest.built32 nan2)).
Proof.
  exact (proj2 (process_defined_iff_wired FirstTest.dt32 (FirstTest.built32 nan2))
           eq_refl).
Defined.

Lemma accumulation_writes_forces_only_witness :
  ∃ sys', System.updateForces (FirstTest.built32 nan2) = Some sys' ∧
    kinetic <$> System.masses sys'
    = kinetic <$> System.masses (FirstTest.built32 nan2).
Proof.
  eexists. split; [reflexivity|].
  exact (proj1 (proj1 (proj2 (accumulation_writes_forces_only FirstTest.dt32
                                (FirstTest.built32 nan2))) _ eq_refl)).
Defined.

